(** * ExploreEase front end: the package-comparison selection and the map wrapper

    A shallow embedding of two pieces of the ExploreEase client code:

    - [static/js/main.js], lines 115-137: the page-global [selectedPackages]
      Set, [togglePackageComparison] and [updateComparisonButton];
    - [static/js/main.js], lines 90-113, 139-160 and 162-195: [debounce]
      with the search box, [lazyLoadImages], and [showToast] with
      [createToastContainer];
    - [static/js/mapbox.js], lines 3-98, 112-131 and 135-151: the
      [ExploreEaseMap] class ([constructor], [init], [addMarker],
      [addPackageMarker], [showFallbackMap], [destroy]) and
      [initPackageMap].

    JavaScript values are modelled as the code uses them: package identifiers
    are strings, a [Set] is the list of its entries in insertion order without
    repetition, and the page (the Set, the [#compareBtn] element and the
    dialogs raised by [alert]) is threaded through a small state monad. *)

From Stdlib Require Import List String Ascii Bool Arith NArith Lia.
From Stdlib Require Import Permutation Eqdep_dec.
Import ListNotations.

Local Open Scope string_scope.
Local Open Scope list_scope.

(* ------------------------------------------------------------------------- *)
(** ** Strings: [Array.prototype.join], template literals, URI pieces        *)
(* ------------------------------------------------------------------------- *)

Module Str.

(** [arr.join(sep)]: the elements separated by [sep]; [""] for [[]]. *)
Fixpoint join (sep : string) (arr : list string) : string :=
  match arr with
  | [] => EmptyString
  | [x] => x
  | x :: rest => (x ++ sep ++ join sep rest)%string
  end.

(** Does character [c] occur in [s]? *)
Fixpoint occurs (c : ascii) (s : string) : bool :=
  match s with
  | EmptyString => false
  | String a r => Ascii.eqb a c || occurs c r
  end.

(** [break c s]: the text before the first [c], and the text after it when
    there is one. *)
Fixpoint break (c : ascii) (s : string) : string * option string :=
  match s with
  | EmptyString => (EmptyString, None)
  | String a r =>
      if Ascii.eqb a c then (EmptyString, Some r)
      else let (before, after) := break c r in (String a before, after)
  end.

(** [s.split(c)] for a one-character separator: never the empty list. *)
Fixpoint split (c : ascii) (s : string) : list string :=
  match s with
  | EmptyString => [EmptyString]
  | String a r =>
      if Ascii.eqb a c then EmptyString :: split c r
      else match split c r with
           | [] => [String a EmptyString]
           | piece :: pieces => String a piece :: pieces
           end
  end.

Lemma occurs_app c s t : occurs c (s ++ t) = occurs c s || occurs c t.
Proof.
  induction s as [|a s IH]; simpl; [reflexivity|].
  now rewrite IH, orb_assoc.
Qed.

Lemma break_absent c s : occurs c s = false -> break c s = (s, None).
Proof.
  induction s as [|a s IH]; simpl; [reflexivity|].
  intros H. apply orb_false_iff in H as [Ha Hs].
  now rewrite Ha, (IH Hs).
Qed.

Lemma break_app c s t :
  occurs c s = false -> break c (s ++ String c t) = (s, Some t).
Proof.
  induction s as [|a s IH]; simpl.
  - now rewrite Ascii.eqb_refl.
  - intros H. apply orb_false_iff in H as [Ha Hs].
    now rewrite Ha, (IH Hs).
Qed.

Lemma split_absent c s : occurs c s = false -> split c s = [s].
Proof.
  induction s as [|a s IH]; simpl; [reflexivity|].
  intros H. apply orb_false_iff in H as [Ha Hs].
  now rewrite Ha, (IH Hs).
Qed.

Lemma split_app c s t :
  occurs c s = false -> split c (s ++ String c t) = s :: split c t.
Proof.
  induction s as [|a s IH]; simpl.
  - now rewrite Ascii.eqb_refl.
  - intros H. apply orb_false_iff in H as [Ha Hs].
    now rewrite Ha, (IH Hs).
Qed.

Lemma join_cons sep x y rest :
  join sep (x :: y :: rest) = (x ++ sep ++ join sep (y :: rest))%string.
Proof. reflexivity. Qed.

Lemma app_assoc (a b c : string) : ((a ++ b) ++ c = a ++ (b ++ c))%string.
Proof. induction a as [|x a IH]; simpl; [reflexivity | now rewrite IH]. Qed.

End Str.

(* ------------------------------------------------------------------------- *)
(** ** The built-in [Set], restricted to string entries                      *)
(* ------------------------------------------------------------------------- *)

Module JSSet.

Fixpoint mem (x : string) (l : list string) : bool :=
  match l with
  | [] => false
  | y :: r => String.eqb x y || mem x r
  end.

Fixpoint distinct (l : list string) : bool :=
  match l with
  | [] => true
  | x :: r => negb (mem x r) && distinct r
  end.

Definition remove (x : string) (l : list string) : list string :=
  filter (fun y => negb (String.eqb x y)) l.

Lemma mem_In x l : mem x l = true <-> In x l.
Proof.
  induction l as [|y r IH]; simpl; [split; [discriminate | tauto]|].
  rewrite orb_true_iff, IH, String.eqb_eq. split; intros [H|H]; auto.
Qed.

Lemma mem_false_In x l : mem x l = false <-> ~ In x l.
Proof.
  rewrite <- mem_In. destruct (mem x l); split; congruence.
Qed.

Lemma distinct_NoDup l : distinct l = true <-> NoDup l.
Proof.
  induction l as [|x r IH]; simpl.
  - split; [constructor | reflexivity].
  - rewrite andb_true_iff, negb_true_iff, mem_false_In, IH.
    split; [intros [H1 H2]; now constructor | intros H; now inversion H].
Qed.

Lemma mem_app x l1 l2 : mem x (l1 ++ l2) = mem x l1 || mem x l2.
Proof.
  induction l1 as [|y r IH]; simpl; [reflexivity|].
  now rewrite IH, orb_assoc.
Qed.

Lemma mem_remove x y l :
  mem y (remove x l) = negb (String.eqb x y) && mem y l.
Proof.
  induction l as [|z r IH]; simpl; [now rewrite andb_false_r|].
  destruct (String.eqb_spec x z) as [->|Hxz]; simpl.
  - rewrite IH. destruct (String.eqb_spec y z) as [->|Hyz]; simpl.
    + now rewrite String.eqb_refl.
    + reflexivity.
  - rewrite IH. destruct (String.eqb_spec y z) as [->|Hyz]; simpl.
    + destruct (String.eqb_spec x z); [contradiction | reflexivity].
    + reflexivity.
Qed.

Lemma distinct_remove x l : distinct l = true -> distinct (remove x l) = true.
Proof.
  rewrite !distinct_NoDup. apply NoDup_filter.
Qed.

Lemma distinct_snoc x l :
  distinct l = true -> mem x l = false -> distinct (l ++ [x]) = true.
Proof.
  rewrite !distinct_NoDup, mem_false_In. intros Hl Hx.
  apply NoDup_app; [assumption | repeat constructor; simpl; tauto |].
  intros y Hy [<-|[]]. contradiction.
Qed.

Lemma remove_absent x l : mem x l = false -> remove x l = l.
Proof.
  induction l as [|y r IH]; simpl; [reflexivity|].
  intros H. apply orb_false_iff in H as [Hxy Hr].
  now rewrite Hxy, (IH Hr).
Qed.

Lemma length_remove x l :
  distinct l = true -> mem x l = true -> S (List.length (remove x l)) = List.length l.
Proof.
  induction l as [|y r IH]; simpl; [discriminate|].
  intros Hd Hm. apply andb_true_iff in Hd as [Hy Hr].
  apply negb_true_iff in Hy.
  destruct (String.eqb_spec x y) as [->|Hxy]; simpl.
  - now rewrite (remove_absent _ _ Hy).
  - now rewrite (IH Hr Hm).
Qed.

(** A Set value: its entries in insertion order, pairwise different. *)
Record t : Type := mk {
  entries : list string;
  entries_distinct : distinct entries = true
}.

(** [new Set()] *)
Definition empty : t := mk [] eq_refl.

(** [s.has(x)] *)
Definition has (x : string) (s : t) : bool := mem x (entries s).

(** [s.size] *)
Definition size (s : t) : nat := List.length (entries s).

(** [s.delete(x)]: the entry equal to [x] goes, the others keep their
    order. *)
Definition delete (x : string) (s : t) : t :=
  mk (remove x (entries s)) (distinct_remove x _ (entries_distinct s)).

(** [s.add(x)]: a new entry goes last; an existing one stays where it is. *)
Definition add (x : string) (s : t) : t :=
  match mem x (entries s) as b return mem x (entries s) = b -> t with
  | true => fun _ => s
  | false => fun H => mk (entries s ++ [x])
                         (distinct_snoc x _ (entries_distinct s) H)
  end eq_refl.

(** [Array.from(s)]: the entries in insertion order. *)
Definition Array_from (s : t) : list string := entries s.

(** Two Sets with the same entries in the same order are the same value. *)
Lemma ext s1 s2 : entries s1 = entries s2 -> s1 = s2.
Proof.
  destruct s1 as [e1 p1], s2 as [e2 p2]; simpl. intros ->.
  f_equal. apply UIP_dec, bool_dec.
Qed.

Lemma entries_add x s :
  entries (add x s) = if has x s then entries s else entries s ++ [x].
Proof.
  unfold add, has.
  generalize (distinct_snoc x (entries s) (entries_distinct s)).
  destruct (mem x (entries s)); reflexivity.
Qed.

Lemma entries_delete x s : entries (delete x s) = remove x (entries s).
Proof. reflexivity. Qed.

Lemma NoDup_entries s : NoDup (entries s).
Proof. apply distinct_NoDup, entries_distinct. Qed.

Lemma has_delete x y s :
  has y (delete x s) = negb (String.eqb x y) && has y s.
Proof. apply mem_remove. Qed.

Lemma has_add x y s : has y (add x s) = String.eqb x y || has y s.
Proof.
  unfold has at 1. rewrite entries_add. unfold has.
  destruct (mem x (entries s)) eqn:Hx.
  - destruct (String.eqb_spec x y) as [<-|]; simpl; [now rewrite Hx | reflexivity].
  - rewrite mem_app; simpl. rewrite orb_false_r, orb_comm.
    now rewrite String.eqb_sym.
Qed.

Lemma size_delete x s : has x s = true -> S (size (delete x s)) = size s.
Proof. apply length_remove, entries_distinct. Qed.

Lemma size_add x s : has x s = false -> size (add x s) = S (size s).
Proof.
  intros H. unfold size. rewrite entries_add, H, List.length_app. simpl. lia.
Qed.

End JSSet.

(* ------------------------------------------------------------------------- *)
(** ** The page: what [main.js] reads and writes                             *)
(* ------------------------------------------------------------------------- *)

(** The two properties of the [#compareBtn] anchor that the script assigns:
    [compareBtn.href] and [compareBtn.style.display]. *)
Record Button : Type := mkButton {
  href : string;
  display : string
}.

(** [selectedPackages] is the module-level [let] of line 116;
    [compareBtn] is what [document.getElementById('compareBtn')] finds
    ([None] for [null]: the page has no such element); [alerts] lists the
    messages passed to [alert], oldest first. *)
Record Page : Type := mkPage {
  selectedPackages : JSSet.t;
  compareBtn : option Button;
  alerts : list string
}.

(** What a call evaluates to. A function body that ends without [return]
    evaluates to [undefined]. *)
Inductive JSValue : Type :=
| undefined
| JSBool (b : bool)
| JSString (s : string).

(** Statements run against the page and cannot throw here: a computation maps
    the page to a value and the page afterwards. *)
Definition Script (A : Type) : Type := Page -> A * Page.

Definition ret {A} (a : A) : Script A := fun pg => (a, pg).

Definition bind {A B} (m : Script A) (k : A -> Script B) : Script B :=
  fun pg => let (a, pg') := m pg in k a pg'.

Declare Scope script_scope.
Delimit Scope script_scope with script.
Bind Scope script_scope with Script.

Notation "x <- m ;; k" := (bind m (fun x => k))
  (at level 61, m at next level, right associativity) : script_scope.
Notation "m ;; k" := (bind m (fun _ => k))
  (at level 61, right associativity) : script_scope.

Local Open Scope script_scope.

(** The page after a computation, and its value. *)
Definition exec {A} (m : Script A) (pg : Page) : Page := snd (m pg).
Definition eval {A} (m : Script A) (pg : Page) : A := fst (m pg).

(** *** Primitive page operations *)

Definition getSelectedPackages : Script JSSet.t :=
  fun pg => (selectedPackages pg, pg).

(** [selectedPackages.delete(x)]; the Set is mutated in place. *)
Definition selectedPackages_delete (x : string) : Script unit :=
  fun pg => (tt, mkPage (JSSet.delete x (selectedPackages pg))
                        (compareBtn pg) (alerts pg)).

(** [selectedPackages.add(x)] *)
Definition selectedPackages_add (x : string) : Script unit :=
  fun pg => (tt, mkPage (JSSet.add x (selectedPackages pg))
                        (compareBtn pg) (alerts pg)).

(** [alert(msg)]: the dialog is shown and the script goes on. *)
Definition alert (msg : string) : Script unit :=
  fun pg => (tt, mkPage (selectedPackages pg) (compareBtn pg)
                        (alerts pg ++ [msg])).

(** [document.getElementById('compareBtn')] *)
Definition getElementById_compareBtn : Script (option Button) :=
  fun pg => (compareBtn pg, pg).

(** [compareBtn.href = v] on the element found. *)
Definition set_href (v : string) : Script unit :=
  fun pg => (tt, mkPage (selectedPackages pg)
                        (option_map (fun b => mkButton v (display b))
                                    (compareBtn pg))
                        (alerts pg)).

(** [compareBtn.style.display = v] on the element found. *)
Definition set_display (v : string) : Script unit :=
  fun pg => (tt, mkPage (selectedPackages pg)
                        (option_map (fun b => mkButton (href b) v)
                                    (compareBtn pg))
                        (alerts pg)).

(** *** [main.js] 131-137 *)

(** The template literal of line 134. *)
Definition compare_href (ids : list string) : string :=
  ("/compare?package_id=" ++ Str.join "&package_id=" ids)%string.

Definition updateComparisonButton : Script unit :=
  btn <- getElementById_compareBtn ;;
  sel <- getSelectedPackages ;;
  match btn with
  | Some _ =>
      if (0 <? JSSet.size sel)%nat then
        set_href (compare_href (JSSet.Array_from sel)) ;;
        set_display "block"
      else ret tt
  | None => ret tt
  end.

(** *** [main.js] 118-129 *)

Definition limit_notice : string :=
  "You can compare up to 3 packages at a time.".

Definition togglePackageComparison (packageId : string) : Script JSValue :=
  sel <- getSelectedPackages ;;
  (if JSSet.has packageId sel then
     selectedPackages_delete packageId
   else
     if (JSSet.size sel <? 3)%nat then
       selectedPackages_add packageId
     else
       alert limit_notice) ;;
  updateComparisonButton ;;
  ret undefined.

(** The page when the script of [main.js] has just been loaded: the Set of
    line 116 is empty and nothing has been alerted; the markup decides
    whether there is a compare button and how it starts. *)
Definition initial (btn : option Button) : Page :=
  mkPage JSSet.empty btn [].

(** A history of user actions: one call of [togglePackageComparison] per
    identifier, in order. *)
Definition toggle (pid : string) (pg : Page) : Page :=
  exec (togglePackageComparison pid) pg.

Definition toggles (ids : list string) (pg : Page) : Page :=
  fold_left (fun p pid => toggle pid p) ids pg.

(** Every page seen along a history, the starting page first. *)
Fixpoint trace (ids : list string) (pg : Page) : list Page :=
  pg :: match ids with
        | [] => []
        | pid :: rest => trace rest (toggle pid pg)
        end.

(** Pages that a run of the script can be in. *)
Inductive reachable : Page -> Prop :=
| reachable_initial btn : reachable (initial btn)
| reachable_toggle pid pg : reachable pg -> reachable (toggle pid pg).

(** The members, as the Set iterates them. *)
Definition members (pg : Page) : list string :=
  JSSet.Array_from (selectedPackages pg).

(* ------------------------------------------------------------------------- *)
(** ** Reading a link back: the query parameters of a URI reference          *)
(* ------------------------------------------------------------------------- *)

(** The receiving side of the link is not part of these sources. To state
    how many [package_id] parameters a link carries, a URI reference is read
    the standard way: the fragment starts at the first [#], the query at the
    first [?] before it, parameters are separated by [&] (empty pieces are
    skipped) and a parameter's name ends at its first [=]. Names and values
    are kept raw, without percent-decoding. *)
Module URI.

Definition parts (u : string) : string * option string * option string :=
  let (hier, fragment) := Str.break "#" u in
  let (path, query) := Str.break "?" hier in
  (path, query, fragment).

Definition path (u : string) : string := fst (fst (parts u)).

Definition query (u : string) : option string := snd (fst (parts u)).

Definition parameter (piece : string) : string * string :=
  let (name, value) := Str.break "=" piece in
  (name, match value with Some v => v | None => EmptyString end).

Definition nonempty (s : string) : bool :=
  match s with EmptyString => false | String _ _ => true end.

Definition query_parameters (q : string) : list (string * string) :=
  map parameter (filter nonempty (Str.split "&" q)).

Definition parameters (u : string) : list (string * string) :=
  match query u with
  | Some q => query_parameters q
  | None => []
  end.

End URI.

(** The parameter that stands for member [id]. *)
Definition package_id (id : string) : string * string := ("package_id", id).

(** "[link] is [/compare] with exactly one [package_id] parameter per member
    and no parameter twice", members given as the list [ids]. *)
Definition one_parameter_per_member (link : string) (ids : list string) : Prop :=
  URI.path link = "/compare" /\
  Permutation (URI.parameters link) (map package_id ids) /\
  NoDup (URI.parameters link).

(** An identifier that cannot end its parameter or the query early. *)
Definition plain (id : string) : bool :=
  negb (Str.occurs "&" id) && negb (Str.occurs "#" id).

(** The text of one parameter. *)
Definition parameter_text (id : string) : string := ("package_id=" ++ id)%string.

(* ------------------------------------------------------------------------- *)
(** ** Observing a call; sample pages                                        *)
(* ------------------------------------------------------------------------- *)

(** The three ways a call can go, and how a caller that only sees the page
    before and after can tell which one it was. *)
Inductive Outcome : Type := added | removed | rejected_at_capacity.

Definition observed_outcome (before after : Page) : Outcome :=
  if (List.length (alerts before) <? List.length (alerts after))%nat
  then rejected_at_capacity
  else if (JSSet.size (selectedPackages after)
             <? JSSet.size (selectedPackages before))%nat
       then removed
       else added.

(** A page whose button starts hidden, as a listing page would have it. *)
Definition hidden_button : Button := mkButton "#" "none".

(** A Set of five entries: no run of the script builds it, another script on
    the page could. *)
Definition five_selected : Page :=
  mkPage (JSSet.mk ["p1"; "p2"; "p3"; "p4"; "p5"] eq_refl) None [].

(* ------------------------------------------------------------------------- *)
(** ** The map wrapper ([mapbox.js])                                         *)
(* ------------------------------------------------------------------------- *)

Module ExploreEaseMap.

Definition dquote : string := String (Ascii.ascii_of_nat 34) EmptyString.
Definition newline : string := String (Ascii.ascii_of_nat 10) EmptyString.

(** [name="value"], as it is written in the markup. *)
Definition attribute (name value : string) : string :=
  (name ++ "=" ++ dquote ++ value ++ dquote)%string.

(** One line of a template literal: a line break, then the indented text. *)
Definition line (indent text : string) : string :=
  (newline ++ indent ++ text)%string.

Section WithSDK.

(** Numbers (coordinates, zoom levels) are handed to the SDK unread. *)
Variable Num : Type.
(** [[88.3639, 22.5726]], the default centre, and the default zoom [10]. *)
Variable Kolkata : Num * Num.
Variable zoom_10 : Num.

Definition LngLat : Type := (Num * Num)%type.

(** The [div] that [addMarker] creates. *)
Record Element : Type := mkElement {
  className : string;
  innerHTML : string;
  style_color : string;
  style_fontSize : string;
  style_cursor : string
}.

Record Popup : Type := mkPopup {
  offset : nat;
  html : string
}.

Record Marker : Type := mkMarker {
  element : Element;
  lngLat : LngLat;
  popup : option Popup
}.

Inductive Control : Type :=
| NavigationControl
| FullscreenControl
| GeolocateControl.

(** The argument of [new mapboxgl.Map]. *)
Record MapConfig : Type := mkMapConfig {
  container : string;
  style : string;
  center : LngLat;
  zoom : Num;
  interactive : bool
}.

(** A [mapboxgl.Map]: how it was configured, and what has been put on it. *)
Record MapboxMap : Type := mkMapboxMap {
  config : MapConfig;
  controls : list Control;
  listeners : list string;
  shown : list Marker
}.

(** Whether [new mapboxgl.Map] throws for a configuration is the SDK's
    business (a missing container, no WebGL). *)
Variable Map_throws : MapConfig -> bool.

(** Whether the global [mapboxgl] is defined. When the script of the SDK
    has not loaded, reading it on line 18 throws a [ReferenceError]. *)
Variable sdk_loaded : bool.

(** The calls that follow [new mapboxgl.Map] in the [try] block, lines
    29-51, in order. *)
Inductive SetupStep : Type :=
| AddNavigation
| AddFullscreen
| AddGeolocate
| OnLoad
| OnError.

(** For a configuration, the first of these calls that throws, if one
    does. *)
Variable setup_throws : MapConfig -> option SetupStep.

(** The controls and the listeners that the map has got when the [try]
    block is left: all of them, or those of the calls before the one that
    throws. *)
Definition controls_before (thrown : option SetupStep) : list Control :=
  match thrown with
  | Some AddNavigation => []
  | Some AddFullscreen => [NavigationControl]
  | Some AddGeolocate => [NavigationControl; FullscreenControl]
  | Some OnLoad | Some OnError | None =>
      [NavigationControl; FullscreenControl; GeolocateControl]
  end.

Definition listeners_before (thrown : option SetupStep) : list string :=
  match thrown with
  | None => ["load"; "error"]
  | Some OnError => ["load"]
  | Some _ => []
  end.

(** The [options] argument of the constructor, and [this.options]. *)
Record Options : Type := mkOptions {
  opt_style : option string;
  opt_zoom : option Num;
  opt_center : option LngLat
}.

(** The [properties] argument of [addMarker]; [{}] has no [popup]. *)
Record Properties : Type := mkProperties {
  prop_popup : option string
}.

(** An [ExploreEaseMap] object together with the one piece of the document
    it writes: the inner HTML of its container, [None] when
    [getElementById(containerId)] finds nothing. *)
Record Instance : Type := mkInstance {
  containerId : string;
  options : Options;
  this_map : option MapboxMap;
  this_markers : list Marker;
  container_html : option string
}.

Definition Method (A : Type) : Type := Instance -> A * Instance.

(** A string is truthy unless it is empty; [undefined] is falsy. *)
Definition truthy (v : option string) : bool :=
  match v with
  | Some (String _ _) => true
  | _ => false
  end.

(** The template literal of lines 115-121. *)
Definition fallback_markup : string :=
  (line "                "
        ("<div " ++ attribute "class" "text-center p-4 bg-light rounded" ++ ">")
   ++ line "                    "
        ("<i " ++ attribute "class" "fas fa-map fa-3x text-muted mb-3" ++ "></i>")
   ++ line "                    "
        ("<h5 " ++ attribute "class" "text-muted" ++ ">Map Unavailable</h5>")
   ++ line "                    "
        ("<p " ++ attribute "class" "text-muted"
           ++ ">We're having trouble loading the map. Please check your connection.</p>")
   ++ line "                " "</div>"
   ++ line "            " "")%string.

(** [showFallbackMap], lines 112-123. *)
Definition showFallbackMap (this : Instance) : Instance :=
  mkInstance (containerId this) (options this) (this_map this)
             (this_markers this)
             (option_map (fun _ => fallback_markup) (container_html this)).

(** The [try] statement of [init], lines 20-56. [this.map] is assigned
    when the constructor of the SDK returns; when that constructor throws,
    [this.map] keeps the [null] of line 11. Whatever throws inside the
    block, the [catch] shows the fallback. The handlers registered with
    [on] run later, outside this call. *)
Definition init_try (this : Instance) : Instance :=
  let cfg :=
    mkMapConfig (containerId this)
      (match opt_style (options this) with
       | Some s => s
       | None => "mapbox://styles/mapbox/outdoors-v12"
       end)
      (match opt_center (options this) with
       | Some c => c
       | None => Kolkata
       end)
      (match opt_zoom (options this) with
       | Some z => z
       | None => zoom_10
       end)
      true in
  if Map_throws cfg then showFallbackMap this
  else
    let assigned :=
      mkInstance (containerId this) (options this)
        (Some (mkMapboxMap cfg (controls_before (setup_throws cfg))
                           (listeners_before (setup_throws cfg)) []))
        (this_markers this) (container_html this) in
    match setup_throws cfg with
    | None => assigned
    | Some _ => showFallbackMap assigned
    end.

(** [init], lines 16-57. Line 18 stands before the [try]: without the SDK
    it throws out of [init], and the value is [None]. *)
Definition init (this : Instance) : option Instance :=
  if sdk_loaded then Some (init_try this) else None.

(** [constructor], lines 4-14; [None] when [init] throws, and no object is
    made. *)
Definition constructor (id : string) (opts : Options)
           (html : option string) : option Instance :=
  init (mkInstance id opts None [] html).

(** [addMarker], lines 59-81. *)
Definition addMarker (at_ : LngLat) (properties : Properties)
  : Method (option Marker) :=
  fun this =>
    match this_map this with
    | None => (None, this)
    | Some m =>
        let el :=
          mkElement "map-marker"
            ("<i " ++ attribute "class" "fas fa-map-marker-alt" ++ "></i>")%string
            "#e74c3c" "24px" "pointer" in
        let marker :=
          mkMarker el at_
            (if truthy (prop_popup properties)
             then option_map (mkPopup 25) (prop_popup properties)
             else None) in
        (Some marker,
         mkInstance (containerId this) (options this)
           (Some (mkMapboxMap (config m) (controls m) (listeners m)
                              (shown m ++ [marker])))
           (this_markers this ++ [marker])
           (container_html this))
    end.

(** [destroy], lines 125-131. *)
Definition destroy (this : Instance) : Instance :=
  mkInstance (containerId this) (options this) None [] (container_html this).

(** Calls of [addMarker] one after the other: what each returned, and the
    object at the end. *)
Fixpoint addMarkers (calls : list (LngLat * Properties))
  : Method (list (option Marker)) :=
  fun this =>
    match calls with
    | [] => ([], this)
    | (at_, properties) :: rest =>
        let (r, this') := addMarker at_ properties this in
        let (rs, this'') := addMarkers rest this' in
        (r :: rs, this'')
    end.

(** [packageData], by the text that the template literal of lines 84-92
    sets for each field, and the two coordinates. *)
Record PackageData : Type := mkPackageData {
  pkg_name : string;
  pkg_destination : string;
  pkg_category : string;
  pkg_price : string;
  pkg_id : string;
  pkg_longitude : Num;
  pkg_latitude : Num
}.

(** [popupContent], lines 84-92. *)
Definition popupContent (packageData : PackageData) : string :=
  (line "            " ("<div " ++ attribute "class" "map-popup" ++ ">")
   ++ line "                "
        ("<h6 " ++ attribute "class" "fw-bold" ++ ">"
           ++ pkg_name packageData ++ "</h6>")
   ++ line "                "
        ("<p " ++ attribute "class" "mb-1" ++ "><i "
           ++ attribute "class" "fas fa-map-marker-alt me-1" ++ "></i>"
           ++ pkg_destination packageData ++ "</p>")
   ++ line "                "
        ("<p " ++ attribute "class" "mb-1" ++ "><i "
           ++ attribute "class" "fas fa-tag me-1" ++ "></i>"
           ++ pkg_category packageData ++ "</p>")
   ++ line "                "
        ("<p " ++ attribute "class" "mb-2" ++ "><i "
           ++ attribute "class" "fas fa-indian-rupee-sign me-1" ++ "></i>"
           ++ pkg_price packageData ++ "/person</p>")
   ++ line "                "
        ("<a " ++ attribute "href" ("/package/" ++ pkg_id packageData) ++ " "
           ++ attribute "class" "btn btn-sm btn-primary"
           ++ ">View Details</a>")
   ++ line "            " "</div>"
   ++ line "        " "")%string.

(** [addPackageMarker], lines 83-98. *)
Definition addPackageMarker (packageData : PackageData)
  : Method (option Marker) :=
  addMarker (pkg_longitude packageData, pkg_latitude packageData)
            (mkProperties (Some (popupContent packageData))).

(** Whether a number is falsy ([0], [-0] and [NaN] are), and the zoom
    [12]. *)
Variable falsy : Num -> bool.
Variable zoom_12 : Num.

(** How a call of [initPackageMap] ends: at the guard of line 136; in the
    [catch] of lines 148-150, no object having been made; or with the
    object, local to the call, as the call leaves it. *)
Inductive PackageMap : Type :=
| Skipped
| Caught
| Made (this : Instance).

(** [initPackageMap], lines 135-151, on a document whose [#map] container
    holds [html] ([None]: there is no such element). *)
Definition initPackageMap (latitude longitude : Num) (packageName : string)
           (html : option string) : PackageMap :=
  if falsy latitude || falsy longitude then Skipped
  else
    match constructor "map"
            (mkOptions None (Some zoom_12) (Some (longitude, latitude)))
            html with
    | None => Caught
    | Some map =>
        Made (snd (addMarker (longitude, latitude)
                     (mkProperties
                        (Some ("<h6>" ++ packageName
                                 ++ "</h6><p>Your destination awaits!</p>")%string))
                     map))
    end.

End WithSDK.

Arguments mkPackageData {Num}.
Arguments addPackageMarker {Num}.
Arguments initPackageMap {Num}.
Arguments mkMarker {Num}.
Arguments mkMapboxMap {Num}.
Arguments mkMapConfig {Num}.
Arguments lngLat {Num}.
Arguments popup {Num}.
Arguments shown {Num}.
Arguments config {Num}.
Arguments center {Num}.
Arguments zoom {Num}.
Arguments mkOptions {Num}.
Arguments mkInstance {Num}.
Arguments this_map {Num}.
Arguments this_markers {Num}.
Arguments container_html {Num}.
Arguments constructor {Num}.
Arguments init_try {Num}.
Arguments init {Num}.
Arguments Made {Num}.
Arguments Caught {Num}.
Arguments Skipped {Num}.
Arguments addMarker {Num}.
Arguments addMarkers {Num}.
Arguments destroy {Num}.

End ExploreEaseMap.

(** The object that is left when [new mapboxgl.Map] throws. *)
Definition mapless : ExploreEaseMap.Instance nat :=
  ExploreEaseMap.init_try (88, 22) 10 (fun _ => true) (fun _ => None)
    (ExploreEaseMap.mkInstance "map"
       (ExploreEaseMap.mkOptions None (Some 12) (Some (77, 28)))
       None [] (Some EmptyString)).

(* ------------------------------------------------------------------------- *)
(** ** Toast notifications ([main.js] 162-195)                               *)
(* ------------------------------------------------------------------------- *)

Module Toasts.

(** A toast [div]. [toast_node] tells one created node from another;
    [toast_shown] is set by [bsToast.show()]; [removes_itself] says that the
    listener of lines 183-185 is registered on the node. *)
Record Toast : Type := mkToast {
  toast_node : nat;
  toast_className : string;
  toast_role : string;
  toast_innerHTML : string;
  toast_shown : bool;
  removes_itself : bool
}.

(** An element of the page that can be found by [getElementById], with the
    toasts it holds. *)
Record Element : Type := mkElement {
  el_id : string;
  el_className : string;
  el_zIndex : string;
  el_children : list Toast
}.

(** The elements in document order; [fresh] numbers the next node that
    [createElement] makes. *)
Record Document : Type := mkDocument {
  elements : list Element;
  fresh : nat
}.

Definition is_toast_container (e : Element) : bool :=
  String.eqb (el_id e) "toast-container".

(** [document.getElementById('toast-container')]: the position of the first
    element with that id, [None] for [null]. *)
Fixpoint getElementById_toast_container (els : list Element) : option nat :=
  match els with
  | [] => None
  | e :: rest =>
      if is_toast_container e then Some 0
      else option_map S (getElementById_toast_container rest)
  end.

(** [createToastContainer], lines 188-195: the new [div] is appended to the
    body, hence last in document order; the value is a reference to it. *)
Definition createToastContainer (doc : Document) : nat * Document :=
  (List.length (elements doc),
   mkDocument
     (elements doc
        ++ [mkElement "toast-container"
                      "toast-container position-fixed top-0 end-0 p-3"
                      "9999" []])
     (S (fresh doc))).

(** [element.appendChild(toast)] on the element at position [at_]. *)
Fixpoint appendChild (at_ : nat) (toast : Toast) (els : list Element)
  : list Element :=
  match els, at_ with
  | [], _ => []
  | e :: rest, 0 =>
      mkElement (el_id e) (el_className e) (el_zIndex e)
                (el_children e ++ [toast]) :: rest
  | e :: rest, S n => e :: appendChild n toast rest
  end.

(** The template literal of lines 170-175. *)
Definition toast_markup (message : string) : string :=
  (ExploreEaseMap.line "        "
     ("<div " ++ ExploreEaseMap.attribute "class" "d-flex" ++ ">")
   ++ ExploreEaseMap.line "            "
        ("<div " ++ ExploreEaseMap.attribute "class" "toast-body" ++ ">"
           ++ message ++ "</div>")
   ++ ExploreEaseMap.line "            "
        ("<button " ++ ExploreEaseMap.attribute "type" "button" ++ " "
           ++ ExploreEaseMap.attribute "class"
                "btn-close btn-close-white me-2 m-auto" ++ " "
           ++ ExploreEaseMap.attribute "data-bs-dismiss" "toast"
           ++ "></button>")
   ++ ExploreEaseMap.line "        " "</div>"
   ++ ExploreEaseMap.line "    " "")%string.

(** The [className] of line 167. *)
Definition toast_class (type : string) : string :=
  ("toast align-items-center text-bg-" ++ type ++ " border-0")%string.

(** The default of the parameter [type = 'info']; a call without the second
    argument is [None]. *)
Definition type_or_info (type : option string) : string :=
  match type with Some t => t | None => "info" end.

(** [showToast(message, type = 'info')], lines 163-186. *)
Definition showToast (message : string) (type : option string)
           (doc : Document) : Document :=
  let type := type_or_info type in
  let (toastContainer, doc1) :=
    match getElementById_toast_container (elements doc) with
    | Some at_ => (at_, doc)
    | None => createToastContainer doc
    end in
  let toast :=
    mkToast (fresh doc1) (toast_class type) "alert" (toast_markup message)
            true true in
  mkDocument (appendChild toastContainer toast (elements doc1))
             (S (fresh doc1)).





(** How many elements outside the toasts carry the id. *)
Definition containers (doc : Document) : nat :=
  List.length (filter is_toast_container (elements doc)).

(** Every node of the document was numbered before [fresh]. *)
Definition numbered (doc : Document) : Prop :=
  Forall (fun e => Forall (fun t => toast_node t < fresh doc) (el_children e))
         (elements doc).

(** Calls of [showToast] one after the other. *)
Definition showToasts (calls : list (string * option string))
           (doc : Document) : Document :=
  fold_left (fun d c => showToast (fst c) (snd c) d) calls doc.

Section ParsedMarkup.

(** Assigning [innerHTML] has the browser parse the text into elements.
    How many elements with the id [toast-container] a markup parses to is
    the parser's business; the message is set into the markup as it is,
    so a message can bring such elements in. *)
Variable containers_in : string -> nat.

(** The elements with the id inside the toasts of the document. *)
Definition containers_in_toasts (doc : Document) : nat :=
  list_sum
    (map (fun e =>
            list_sum (map (fun t => containers_in (toast_innerHTML t))
                          (el_children e)))
         (elements doc)).

(** Every element of the document that carries the id. *)
Definition all_containers (doc : Document) : nat :=
  containers doc + containers_in_toasts doc.

End ParsedMarkup.

End Toasts.

(* ------------------------------------------------------------------------- *)
(** ** [debounce] and the search box ([main.js] 90-113)                      *)
(* ------------------------------------------------------------------------- *)

Module Debounce.

Section Debounced.

(** [...args] of a call; what [func] reads and writes; [func] itself; and
    [wait], in milliseconds. *)
Variable Args : Type.
Variable State : Type.
Variable func : Args -> State -> State.
Variable wait : nat.

(** A timer that [setTimeout(later, wait)] has set: its handle, the time at
    which it is due, and the [args] that its [later] has captured. *)
Record Timer : Type := mkTimer {
  handle : nat;
  due : nat;
  args : Args
}.

(** The browser's clock and timers, the variable [timeout] of the closure
    ([None] for [undefined]), and the state that [func] acts on. *)
Record World : Type := mkWorld {
  clock : nat;
  next_handle : nat;
  pending : list Timer;
  timeout : option nat;
  page : State
}.

(** [clearTimeout(h)]: nothing happens for [undefined] or for a handle that
    is not pending. *)
Definition clearTimeout (h : option nat) (w : World) : World :=
  match h with
  | None => w
  | Some h =>
      mkWorld (clock w) (next_handle w)
              (filter (fun t => negb (Nat.eqb (handle t) h)) (pending w))
              (timeout w) (page w)
  end.

(** [setTimeout(later, wait)], with [later] capturing [a]. *)
Definition setTimeout (a : Args) (w : World) : nat * World :=
  (next_handle w,
   mkWorld (clock w) (S (next_handle w))
           (pending w ++ [mkTimer (next_handle w) (clock w + wait) a])
           (timeout w) (page w)).

(** [executedFunction(...args)], lines 93-100. *)
Definition executedFunction (a : Args) (w : World) : World :=
  let w1 := clearTimeout (timeout w) w in
  let (h, w2) := setTimeout a w1 in
  mkWorld (clock w2) (next_handle w2) (pending w2) (Some h) (page w2).

(** [later], lines 94-97. *)
Definition later (a : Args) (w : World) : World :=
  let w1 := clearTimeout (timeout w) w in
  mkWorld (clock w1) (next_handle w1) (pending w1) (timeout w1)
          (func a (page w1)).

(** The pending timer that is due first; of two due together, the one set
    first. *)
Fixpoint earliest (ts : list Timer) : option Timer :=
  match ts with
  | [] => None
  | t :: rest =>
      match earliest rest with
      | Some u => if (due u <? due t)%nat then Some u else Some t
      | None => Some t
      end
  end.

(** The event loop runs one timer that is due: the timer leaves the pending
    ones and its callback runs. [None] when no timer is due. *)
Definition fire (w : World) : option World :=
  match earliest (pending w) with
  | Some t =>
      if (due t <=? clock w)%nat then
        Some (later (args t)
                (mkWorld (clock w) (next_handle w)
                   (filter (fun u => negb (Nat.eqb (handle u) (handle t)))
                           (pending w))
                   (timeout w) (page w)))
      else None
  | None => None
  end.

(** Run the timers that are due, at most [n] of them. *)
Fixpoint run_due (n : nat) (w : World) : World :=
  match n with
  | 0 => w
  | S n =>
      match fire w with
      | Some w' => run_due n w'
      | None => w
      end
  end.

(** [dt] milliseconds pass, and every timer that has become due runs: no
    callback sets a timer, so there are no more runs than pending timers. *)
Definition advance (dt : nat) (w : World) : World :=
  run_due (List.length (pending w))
          (mkWorld (clock w + dt) (next_handle w) (pending w) (timeout w)
                   (page w)).

(** Other code changes the state that [func] acts on. *)
Definition touch (f : State -> State) (w : World) : World :=
  mkWorld (clock w) (next_handle w) (pending w) (timeout w) (f (page w)).

(** When [debounce(func, wait)] has just returned: no call yet. *)
Definition fresh (now first_handle : nat) (s : State) : World :=
  mkWorld now first_handle [] None s.

(** What a run of the page can make of the world. *)
Inductive reachable : World -> Prop :=
| reachable_fresh now first_handle s : reachable (fresh now first_handle s)
| reachable_call a w : reachable w -> reachable (executedFunction a w)
| reachable_advance dt w : reachable w -> reachable (advance dt w)
| reachable_touch f w : reachable w -> reachable (touch f w).

(** At most one timer is pending, and [timeout] holds its handle. *)
Definition tidy (w : World) : Prop :=
  pending w = [] \/
  exists t, pending w = [t] /\ timeout w = Some (handle t).

(** A burst: calls, each followed by a pause. *)
Definition burst (calls : list (Args * nat)) (w : World) : World :=
  fold_left (fun w c => advance (snd c) (executedFunction (fst c) w)) calls w.

End Debounced.

Arguments mkTimer {Args}.
Arguments handle {Args}.
Arguments due {Args}.
Arguments args {Args}.
Arguments mkWorld {Args State}.
Arguments clock {Args State}.
Arguments next_handle {Args State}.
Arguments pending {Args State}.
Arguments timeout {Args State}.
Arguments page {Args State}.
Arguments executedFunction {Args State}.
Arguments later {Args State}.
Arguments fire {Args State}.
Arguments run_due {Args State}.
Arguments advance {Args State}.
Arguments touch {Args State}.
Arguments fresh {Args State}.
Arguments reachable {Args State}.
Arguments burst {Args State}.
Arguments tidy {Args State}.

End Debounce.

(** *** The search box, lines 103-113 *)

(** The text of the search box as JavaScript holds it: its UTF-16 code
    units, in order. [searchTerm.length] is their number, so a character
    outside the basic plane counts for two and every other one for one,
    whatever its bytes in another encoding. *)
Definition CodeUnits : Type := list N.

(** [searchInput.value]; whether the input sits in a form; what the form
    has submitted, oldest first; and how many times the callback has thrown
    because [e.target.form] was [null]. *)
Record SearchPage : Type := mkSearchPage {
  search_value : CodeUnits;
  in_form : bool;
  submitted : list CodeUnits;
  uncaught : nat
}.

(** The function of lines 106-112. Its argument [e] is the [input] event,
    whose [target] is the search input. *)
Definition search_callback (e : unit) (pg : SearchPage) : SearchPage :=
  let searchTerm := search_value pg in
  if (3 <=? List.length searchTerm)%nat
     || (List.length searchTerm =? 0)%nat
  then
    if in_form pg then
      mkSearchPage (search_value pg) true (submitted pg ++ [searchTerm])
                   (uncaught pg)
    else
      mkSearchPage (search_value pg) false (submitted pg) (S (uncaught pg))
  else pg.

Definition SearchWorld : Type := Debounce.World unit SearchPage.

(** The user edits the box to [v]: the value changes and the [input]
    listener, the debounced function with [wait = 500], is called. *)
Definition input (v : CodeUnits) (w : SearchWorld) : SearchWorld :=
  Debounce.executedFunction 500 tt
    (Debounce.touch
       (fun pg => mkSearchPage v (in_form pg) (submitted pg) (uncaught pg))
       w).

(** Time passes on the page of the search box. *)
Definition pause (dt : nat) (w : SearchWorld) : SearchWorld :=
  Debounce.advance search_callback dt w.

(** Typing: edits, each followed by a pause. *)
Definition typing (keys : list (CodeUnits * nat)) (w : SearchWorld)
  : SearchWorld :=
  fold_left (fun w k => pause (snd k) (input (fst k) w)) keys w.

(* ------------------------------------------------------------------------- *)
(** ** Lazy loading of images ([main.js] 139-160)                            *)
(* ------------------------------------------------------------------------- *)

Module LazyImages.

(** An [img]: its [src], its [data-src] attribute ([None] when it has
    none) and its class list. *)
Record Img : Type := mkImg {
  img_src : string;
  img_data_src : option string;
  img_classList : list string
}.

(** The images of the document in document order, an image being known by
    its position, and the targets that [imageObserver] observes. *)
Record Page : Type := mkPage {
  images : list Img;
  observed : list nat
}.

(** An [IntersectionObserverEntry]. *)
Record Entry : Type := mkEntry {
  target : nat;
  isIntersecting : bool
}.

Definition has_data_src (img : Img) : bool :=
  match img_data_src img with Some _ => true | None => false end.

(** [document.querySelectorAll('img[data-src]')]: the positions, counted
    from [from], of the images that have the attribute. *)
Fixpoint querySelectorAll_data_src (from : nat) (imgs : list Img) : list nat :=
  match imgs with
  | [] => []
  | img :: rest =>
      (if has_data_src img then [from] else [])
        ++ querySelectorAll_data_src (S from) rest
  end.

(** [lazyLoadImages], lines 140-155: a new observer, observing each
    selected image. *)
Definition lazyLoadImages (imgs : list Img) : Page :=
  mkPage imgs (querySelectorAll_data_src 0 imgs).

(** Lines 157-160: without [IntersectionObserver] nothing is observed. *)
Definition startup (supported : bool) (imgs : list Img) : Page :=
  if supported then lazyLoadImages imgs else mkPage imgs [].

(** Lines 147-148 on one image: [img.src = img.dataset.src] (a missing
    attribute reads as [undefined], which the assignment writes as text),
    then [img.classList.remove('lazy')]. *)
Definition load (img : Img) : Img :=
  mkImg (match img_data_src img with
         | Some s => s
         | None => "undefined"
         end)
        (img_data_src img)
        (filter (fun c => negb (String.eqb c "lazy")) (img_classList img)).

Fixpoint update_at (i : nat) (f : Img -> Img) (imgs : list Img) : list Img :=
  match imgs, i with
  | [], _ => []
  | img :: rest, 0 => f img :: rest
  | img :: rest, S n => img :: update_at n f rest
  end.

(** The body of the [forEach] of lines 144-151, for one entry. *)
Definition on_entry (entry : Entry) (pg : Page) : Page :=
  if isIntersecting entry then
    mkPage (update_at (target entry) load (images pg))
           (filter (fun t => negb (Nat.eqb t (target entry))) (observed pg))
  else pg.

(** The callback of the observer, lines 143-152. *)
Definition callback (entries : list Entry) (pg : Page) : Page :=
  fold_left (fun p e => on_entry e p) entries pg.

Definition watched (i : nat) (pg : Page) : bool :=
  existsb (Nat.eqb i) (observed pg).

(** The browser calls back with entries for targets of the observer only:
    of a batch, those whose target is observed when the batch is made. *)
Definition deliver (batch : list Entry) (pg : Page) : Page :=
  callback (filter (fun e => watched (target e) pg) batch) pg.

Definition deliveries (batches : list (list Entry)) (pg : Page) : Page :=
  fold_left (fun p b => deliver b p) batches pg.

(** Some batch reports the image at position [i] as intersecting. *)
Definition reported (i : nat) (batches : list (list Entry)) : bool :=
  existsb (existsb (fun e => isIntersecting e && Nat.eqb i (target e)))
          batches.

End LazyImages.

(** What an image must be, given the image it was and whether it is still
    observed. *)
Definition expected (img0 : LazyImages.Img) (still_watched : bool)
  : LazyImages.Img :=
  if LazyImages.has_data_src img0 && negb still_watched
  then LazyImages.load img0 else img0.

(** The state of the images relative to the images [imgs] of the document
    as it was loaded. *)
Definition lazy_inv (imgs : list LazyImages.Img) (pg : LazyImages.Page) : Prop :=
  (forall i, nth_error (LazyImages.images pg) i
             = option_map (fun img0 => expected img0 (LazyImages.watched i pg))
                          (nth_error imgs i)) /\
  (forall i, LazyImages.watched i pg = true ->
             exists img0, nth_error imgs i = Some img0 /\
                          LazyImages.has_data_src img0 = true).

(** A parser's count for the samples: the markup that carries the id is
    the one whose message does. *)
Definition sample_containers_in (markup : string) : nat :=
  if String.eqb markup
       (Toasts.toast_markup "<b id='toast-container'>Saved</b>")
  then 1 else 0.

(** Three images of a listing page: two lazy ones and a plain one. *)
Definition listing_images : list LazyImages.Img :=
  [LazyImages.mkImg "placeholder.png" (Some "goa.jpg") ["card-img"; "lazy"];
   LazyImages.mkImg "logo.png" None ["logo"];
   LazyImages.mkImg "placeholder.png" (Some "leh.jpg") ["lazy"]].

(** A debounced logger with [wait = 300]: [func] appends its argument. *)
Definition log_world : Debounce.World string (list string) :=
  Debounce.fresh 0 1 [].

Definition log_func (a : string) (s : list string) : list string := s ++ [a].

(** An object whose SDK has started, and the handle it holds. *)
Definition mapped : ExploreEaseMap.Instance nat :=
  ExploreEaseMap.init_try (88, 22) 10 (fun _ => false) (fun _ => None)
    (ExploreEaseMap.mkInstance "map"
       (ExploreEaseMap.mkOptions None None None) None [] (Some EmptyString)).

Definition mapped_handle : ExploreEaseMap.MapboxMap nat :=
  ExploreEaseMap.mkMapboxMap
    (ExploreEaseMap.mkMapConfig "map" "mapbox://styles/mapbox/outdoors-v12"
                                (88, 22) 10 true)
    [ExploreEaseMap.NavigationControl; ExploreEaseMap.FullscreenControl;
     ExploreEaseMap.GeolocateControl]
    ["load"; "error"] [].

(* ------------------------------------------------------------------------- *)
(** ** Equations of the two functions                                        *)
(* ------------------------------------------------------------------------- *)

(** What [updateComparisonButton] leaves in [#compareBtn] for a Set [sel]. *)
Lemma exec_updateComparisonButton pg :
  exec updateComparisonButton pg =
  mkPage (selectedPackages pg)
         (match compareBtn pg with
          | Some b =>
              if (0 <? JSSet.size (selectedPackages pg))%nat
              then Some (mkButton (compare_href (members pg)) "block")
              else Some b
          | None => None
          end)
         (alerts pg).
Proof.
  destruct pg as [sel [b|] al]; unfold exec, updateComparisonButton, bind; simpl.
  - destruct (0 <? JSSet.size sel)%nat; reflexivity.
  - reflexivity.
Qed.

(** A call of [togglePackageComparison] is one change of the Set or one
    [alert], then [updateComparisonButton]; its value is [undefined]. *)
Lemma togglePackageComparison_eq pid pg :
  togglePackageComparison pid pg =
  (undefined,
   exec updateComparisonButton
     (let sel := selectedPackages pg in
      if JSSet.has pid sel then
        mkPage (JSSet.delete pid sel) (compareBtn pg) (alerts pg)
      else if (JSSet.size sel <? 3)%nat then
        mkPage (JSSet.add pid sel) (compareBtn pg) (alerts pg)
      else
        mkPage sel (compareBtn pg) (alerts pg ++ [limit_notice]))).
Proof.
  destruct pg as [sel btn al].
  unfold exec, togglePackageComparison, bind; simpl.
  destruct (JSSet.has pid sel); [|destruct (JSSet.size sel <? 3)%nat];
    unfold selectedPackages_delete, selectedPackages_add, alert; simpl;
    match goal with |- context [updateComparisonButton ?p] =>
      destruct (updateComparisonButton p) end; reflexivity.
Qed.

Lemma selectedPackages_toggle pid pg :
  selectedPackages (toggle pid pg) =
  let sel := selectedPackages pg in
  if JSSet.has pid sel then JSSet.delete pid sel
  else if (JSSet.size sel <? 3)%nat then JSSet.add pid sel else sel.
Proof.
  unfold toggle, exec at 1. rewrite togglePackageComparison_eq; simpl.
  rewrite exec_updateComparisonButton; simpl.
  destruct (JSSet.has pid (selectedPackages pg));
    [|destruct (JSSet.size (selectedPackages pg) <? 3)%nat]; reflexivity.
Qed.

Lemma alerts_toggle pid pg :
  alerts (toggle pid pg) =
  let sel := selectedPackages pg in
  if JSSet.has pid sel then alerts pg
  else if (JSSet.size sel <? 3)%nat then alerts pg
       else alerts pg ++ [limit_notice].
Proof.
  unfold toggle, exec at 1. rewrite togglePackageComparison_eq; simpl.
  rewrite exec_updateComparisonButton; simpl.
  destruct (JSSet.has pid (selectedPackages pg));
    [|destruct (JSSet.size (selectedPackages pg) <? 3)%nat]; reflexivity.
Qed.

(** After a call the button, when there is one, shows the link of the Set as
    it now is, unless that Set is empty: then the element is left as it
    was. *)
Lemma compareBtn_toggle pid pg :
  compareBtn (toggle pid pg) =
  match compareBtn pg with
  | Some b =>
      if (0 <? JSSet.size (selectedPackages (toggle pid pg)))%nat
      then Some (mkButton (compare_href (members (toggle pid pg))) "block")
      else Some b
  | None => None
  end.
Proof.
  unfold members. rewrite selectedPackages_toggle.
  unfold toggle, exec at 1. rewrite togglePackageComparison_eq; simpl.
  rewrite exec_updateComparisonButton; simpl.
  destruct (JSSet.has pid (selectedPackages pg));
    [|destruct (JSSet.size (selectedPackages pg) <? 3)%nat]; reflexivity.
Qed.

Lemma toggles_snoc ids pid pg :
  toggles (ids ++ [pid]) pg = toggle pid (toggles ids pg).
Proof. unfold toggles. now rewrite fold_left_app. Qed.

(** The cap holds along every run. *)
Lemma size_toggle_le pid pg :
  JSSet.size (selectedPackages pg) <= 3 ->
  JSSet.size (selectedPackages (toggle pid pg)) <= 3.
Proof.
  intros H. rewrite selectedPackages_toggle; cbv zeta.
  destruct (JSSet.has pid (selectedPackages pg)) eqn:Hhas.
  - pose proof (JSSet.size_delete _ _ Hhas). lia.
  - destruct (Nat.ltb_spec (JSSet.size (selectedPackages pg)) 3).
    + rewrite (JSSet.size_add _ _ Hhas). lia.
    + assumption.
Qed.

Lemma reachable_size_le pg :
  reachable pg -> JSSet.size (selectedPackages pg) <= 3.
Proof.
  induction 1 as [btn | pid pg _ IH]; [cbv; lia | now apply size_toggle_le].
Qed.

Lemma reachable_toggles ids pg : reachable pg -> reachable (toggles ids pg).
Proof.
  revert pg. induction ids as [|pid ids IH]; intros pg H; simpl; [assumption|].
  apply IH. now constructor.
Qed.

Lemma trace_last ids pg d : last (trace ids pg) d = toggles ids pg.
Proof.
  revert pg. induction ids as [|pid ids IH]; intros pg; [reflexivity|].
  change (toggles (pid :: ids) pg) with (toggles ids (toggle pid pg)).
  rewrite <- IH. destruct ids; reflexivity.
Qed.

Lemma trace_size_le ids pg :
  JSSet.size (selectedPackages pg) <= 3 ->
  Forall (fun p => JSSet.size (selectedPackages p) <= 3) (trace ids pg).
Proof.
  revert pg. induction ids as [|pid ids IH]; intros pg H.
  - simpl. constructor; [assumption | constructor].
  - change (trace (pid :: ids) pg) with (pg :: trace ids (toggle pid pg)).
    constructor; [assumption|]. now apply IH, size_toggle_le.
Qed.

(* ------------------------------------------------------------------------- *)
(** ** The link, read back                                                   *)
(* ------------------------------------------------------------------------- *)

(** Line 134 writes the parameters of the members one after the other,
    separated by [&]. *)
Lemma compare_href_parameters ids :
  ids <> [] ->
  compare_href ids
  = ("/compare?" ++ Str.join "&" (map parameter_text ids))%string.
Proof.
  intros Hne. unfold compare_href.
  change ("/compare?package_id=" ++ Str.join "&package_id=" ids)%string
    with ("/compare?" ++ ("package_id=" ++ Str.join "&package_id=" ids))%string.
  f_equal.
  induction ids as [|x [|y rest] IH]; [contradiction | reflexivity |].
  change (map parameter_text (x :: y :: rest))
    with (parameter_text x :: map parameter_text (y :: rest)).
  change (Str.join "&" (parameter_text x :: map parameter_text (y :: rest)))
    with (parameter_text x ++ "&"
            ++ Str.join "&" (map parameter_text (y :: rest)))%string.
  rewrite <- IH by discriminate.
  rewrite Str.join_cons. unfold parameter_text.
  now rewrite !Str.app_assoc.
Qed.

Lemma occurs_join c sep pieces :
  Str.occurs c sep = false ->
  Forall (fun p => Str.occurs c p = false) pieces ->
  Str.occurs c (Str.join sep pieces) = false.
Proof.
  intros Hsep. induction 1 as [|x rest Hx Hrest IH]; [reflexivity|].
  destruct rest as [|y rest]; [exact Hx|].
  rewrite Str.join_cons, !Str.occurs_app, Hx, Hsep. exact IH.
Qed.

Lemma split_join c pieces :
  pieces <> [] ->
  Forall (fun p => Str.occurs c p = false) pieces ->
  Str.split c (Str.join (String c EmptyString) pieces) = pieces.
Proof.
  intros Hne. induction 1 as [|x rest Hx Hrest IH]; [contradiction|].
  destruct rest as [|y rest]; [now apply Str.split_absent|].
  rewrite Str.join_cons.
  change (x ++ String c "" ++ Str.join (String c "") (y :: rest))%string
    with (x ++ String c (Str.join (String c "") (y :: rest)))%string.
  rewrite (Str.split_app _ _ _ Hx). f_equal. apply IH. discriminate.
Qed.

Lemma plain_parameter_text c id :
  Ascii.eqb c "=" = false -> Str.occurs c "package_id" = false ->
  Str.occurs c id = false -> Str.occurs c (parameter_text id) = false.
Proof.
  intros Heq Hname Hid. unfold parameter_text.
  change ("package_id=" ++ id)%string with ("package_id" ++ String "=" id)%string.
  rewrite Str.occurs_app, Hname.
  change (Str.occurs c (String "=" id))
    with (Ascii.eqb "=" c || Str.occurs c id).
  now rewrite Ascii.eqb_sym, Heq, Hid.
Qed.

Lemma parameter_parameter_text id :
  URI.parameter (parameter_text id) = package_id id.
Proof. reflexivity. Qed.

Lemma parameters_of_texts ids :
  map URI.parameter (filter URI.nonempty (map parameter_text ids))
  = map package_id ids.
Proof.
  induction ids as [|x rest IH]; [reflexivity|].
  cbn [map filter].
  change (URI.nonempty (parameter_text x)) with true. cbn iota.
  cbn [map]. now rewrite IH, parameter_parameter_text.
Qed.

(** For identifiers without [&] and [#], the link reads back as the members
    in iteration order. *)
Lemma parameters_compare_href ids :
  ids <> [] -> forallb plain ids = true ->
  URI.path (compare_href ids) = "/compare" /\
  URI.parameters (compare_href ids) = map package_id ids.
Proof.
  intros Hne Hplain. rewrite forallb_forall in Hplain.
  assert (Hamp : Forall (fun p => Str.occurs "&" p = false)
                        (map parameter_text ids)).
  { apply Forall_map, Forall_forall. intros id Hin.
    specialize (Hplain id Hin). unfold plain in Hplain.
    apply andb_true_iff in Hplain as [H _]. apply negb_true_iff in H.
    now apply plain_parameter_text. }
  assert (Hhash : Forall (fun p => Str.occurs "#" p = false)
                         (map parameter_text ids)).
  { apply Forall_map, Forall_forall. intros id Hin.
    specialize (Hplain id Hin). unfold plain in Hplain.
    apply andb_true_iff in Hplain as [_ H]. apply negb_true_iff in H.
    now apply plain_parameter_text. }
  rewrite (compare_href_parameters ids Hne).
  set (q := Str.join "&" (map parameter_text ids)).
  assert (Hq : Str.occurs "#" q = false) by now apply occurs_join.
  assert (Hparts : URI.parts ("/compare?" ++ q) = ("/compare", Some q, None)).
  { unfold URI.parts.
    rewrite (Str.break_absent "#" ("/compare?" ++ q)%string)
      by (rewrite Str.occurs_app, Hq; reflexivity).
    change ("/compare?" ++ q)%string with ("/compare" ++ String "?" q)%string.
    now rewrite Str.break_app. }
  unfold URI.path, URI.parameters, URI.query. rewrite Hparts; simpl.
  split; [reflexivity|].
  unfold URI.query_parameters, q.
  rewrite split_join; [| now destruct ids | assumption].
  apply parameters_of_texts.
Qed.

Lemma size_pos_members pg :
  members pg <> [] -> (0 <? JSSet.size (selectedPackages pg))%nat = true.
Proof.
  unfold members, JSSet.Array_from, JSSet.size.
  destruct (JSSet.entries (selectedPackages pg)); [contradiction | reflexivity].
Qed.

Lemma size_zero_members pg :
  members pg = [] -> (0 <? JSSet.size (selectedPackages pg))%nat = false.
Proof.
  unfold members, JSSet.Array_from, JSSet.size. now intros ->.
Qed.

(** On an empty Set [updateComparisonButton] touches nothing: what the
    element showed before, it still shows. *)
Lemma updateComparisonButton_empty pg :
  members pg = [] -> exec updateComparisonButton pg = pg.
Proof.
  intros H. rewrite exec_updateComparisonButton, (size_zero_members pg H).
  destruct pg as [sel [b|] al]; reflexivity.
Qed.

(** Calls neither create nor remove the element. *)
Lemma presence_toggle pid pg :
  option_map (fun _ => tt) (compareBtn (toggle pid pg))
  = option_map (fun _ => tt) (compareBtn pg).
Proof.
  rewrite compareBtn_toggle. destruct (compareBtn pg); [|reflexivity].
  destruct (0 <? _)%nat; reflexivity.
Qed.

Lemma presence_toggles ids pg :
  option_map (fun _ => tt) (compareBtn (toggles ids pg))
  = option_map (fun _ => tt) (compareBtn pg).
Proof.
  revert pg. induction ids as [|pid ids IH]; intros pg; [reflexivity|].
  change (toggles (pid :: ids) pg) with (toggles ids (toggle pid pg)).
  now rewrite IH, presence_toggle.
Qed.

(** After at least one call, a non-empty Set has its own link on the button:
    nothing of the earlier history is left in the element. *)
Lemma compareBtn_toggles ids pg :
  ids <> [] -> members (toggles ids pg) <> [] ->
  compareBtn (toggles ids pg)
  = option_map
      (fun _ => mkButton (compare_href (members (toggles ids pg))) "block")
      (compareBtn pg).
Proof.
  intros Hids Hne.
  destruct (exists_last Hids) as [ids' [pid ->]].
  rewrite toggles_snoc in *.
  rewrite compareBtn_toggle, (size_pos_members _ Hne).
  pose proof (presence_toggles ids' pg) as Hp.
  destruct (compareBtn (toggles ids' pg)), (compareBtn pg);
    simpl in *; congruence.
Qed.

Lemma NoDup_map_package_id ids : NoDup ids -> NoDup (map package_id ids).
Proof.
  induction 1 as [|x l Hx Hl IH]; simpl; constructor; [|exact IH].
  rewrite in_map_iff. intros (y & Hy & Hin). inversion Hy; subst. contradiction.
Qed.

(** Without the element there is no link at all. *)
Lemma updateComparisonButton_no_button pg :
  compareBtn pg = None -> exec updateComparisonButton pg = pg.
Proof.
  intros H. rewrite exec_updateComparisonButton, H.
  destruct pg as [sel btn al]; simpl in *. now subst.
Qed.

(** A [#] in an identifier ends the query where it stands: of two members
    one parameter is read back, with a shortened value. *)
Example hash_identifier_cuts_the_query :
  URI.parameters (compare_href ["a#"; "b"]) = [("package_id", "a")].
Proof. reflexivity. Qed.

(** Whatever way a link is read, it cannot tell these two selections apart:
    one member with [&] in it, and two members. *)
Example different_selections_same_link :
  compare_href ["p1&package_id=p2"] = compare_href ["p1"; "p2"].
Proof. reflexivity. Qed.

(** The scenario of the specification, section 8, on a page whose button
    starts hidden. *)
Example scenario_three_then_reject :
  let start := initial (Some hidden_button) in
  let obs pg := (members pg, option_map href (compareBtn pg), alerts pg) in
  obs (toggles ["p1"] start)
    = (["p1"], Some "/compare?package_id=p1", []) /\
  obs (toggles ["p1"; "p2"; "p3"] start)
    = (["p1"; "p2"; "p3"],
       Some "/compare?package_id=p1&package_id=p2&package_id=p3", []) /\
  obs (toggles ["p1"; "p2"; "p3"; "p4"] start)
    = (["p1"; "p2"; "p3"],
       Some "/compare?package_id=p1&package_id=p2&package_id=p3",
       [limit_notice]) /\
  obs (toggles ["p1"; "p2"; "p3"; "p4"; "p1"] start)
    = (["p2"; "p3"],
       Some "/compare?package_id=p2&package_id=p3", [limit_notice]).
Proof. repeat split. Qed.

(** Two calls with a member keep the membership and move the member to the
    end of the iteration order. *)
Example double_toggle_moves_member_last :
  members (toggles ["p1"; "p2"; "p1"; "p1"] (initial None)) = ["p2"; "p1"].
Proof. reflexivity. Qed.

(* ------------------------------------------------------------------------- *)
(** ** Facts about the map wrapper                                           *)
(* ------------------------------------------------------------------------- *)

Section MapWrapper.

Context {Num : Type}.
Variable Kolkata : Num * Num.
Variable zoom_10 : Num.
Variable Map_throws : ExploreEaseMap.MapConfig Num -> bool.

Variable setup_throws :
  ExploreEaseMap.MapConfig Num -> option ExploreEaseMap.SetupStep.

(** When [new mapboxgl.Map] throws, the object is left without a handle and
    without markers, and the container shows the fallback. *)
Lemma constructor_failed id opts html :
  (forall cfg, Map_throws cfg = true) ->
  exists this,
    ExploreEaseMap.constructor Kolkata zoom_10 Map_throws true setup_throws
                               id opts html = Some this /\
    ExploreEaseMap.this_map this = None /\
    ExploreEaseMap.this_markers this = [] /\
    ExploreEaseMap.container_html this
      = option_map (fun _ => ExploreEaseMap.fallback_markup) html.
Proof.
  intros Hthrows.
  unfold ExploreEaseMap.constructor, ExploreEaseMap.init,
         ExploreEaseMap.init_try.
  rewrite Hthrows. eexists. repeat split.
Qed.

(** Without the SDK no object is made, and nothing is shown. *)
Lemma constructor_without_sdk id opts html :
  ExploreEaseMap.constructor Kolkata zoom_10 Map_throws false setup_throws
                             id opts html = None.
Proof. reflexivity. Qed.

Lemma this_map_destroy (this : ExploreEaseMap.Instance Num) :
  ExploreEaseMap.this_map (ExploreEaseMap.destroy this) = None.
Proof. reflexivity. Qed.

(** With a handle, a call returns the marker it made and appends it. *)
Lemma addMarker_with_map at_ properties (this : ExploreEaseMap.Instance Num) m :
  ExploreEaseMap.this_map this = Some m ->
  exists marker,
    fst (ExploreEaseMap.addMarker at_ properties this) = Some marker /\
    ExploreEaseMap.this_markers (snd (ExploreEaseMap.addMarker at_ properties this))
      = ExploreEaseMap.this_markers this ++ [marker].
Proof.
  intros H. unfold ExploreEaseMap.addMarker. rewrite H.
  eexists. split; reflexivity.
Qed.

Lemma addMarker_without_map at_ properties (this : ExploreEaseMap.Instance Num) :
  ExploreEaseMap.this_map this = None ->
  ExploreEaseMap.addMarker at_ properties this = (None, this).
Proof.
  intros H. unfold ExploreEaseMap.addMarker. now rewrite H.
Qed.

End MapWrapper.

(* ------------------------------------------------------------------------- *)
(** ** Properties of the selection ([main.js])                               *)
(* ------------------------------------------------------------------------- *)

(** C1. Along every sequence of [togglePackageComparison] calls that starts
    from the empty Set, every page met, the first and the last included,
    holds at most 3 selected identifiers. *)
Theorem C1_selection_never_exceeds_three (btn : option Button) (ids : list string) :
  Forall (fun pg => JSSet.size (selectedPackages pg) <= 3)
         (trace ids (initial btn)).
Proof.
  apply trace_size_le. cbv. lia.
Qed.

(** C2 (as the code has it). On a page that has the compare button, for a
    non-empty selection whose identifiers contain neither [&] nor [#],
    [updateComparisonButton] shows the button with the link
    [/compare?package_id=..&package_id=..]: its path is [/compare] and its
    query has exactly one [package_id] parameter per member, in the Set's
    iteration order, none of them twice. *)
Theorem C2_link_enumerates_plain_members (pg : Page) (b : Button) :
  compareBtn pg = Some b ->
  members pg <> [] ->
  forallb plain (members pg) = true ->
  exists b',
    compareBtn (exec updateComparisonButton pg) = Some b' /\
    display b' = "block" /\
    href b' = compare_href (members pg) /\
    URI.parameters (href b') = map package_id (members pg) /\
    one_parameter_per_member (href b') (members pg).
Proof.
  intros Hbtn Hne Hplain.
  exists (mkButton (compare_href (members pg)) "block").
  rewrite exec_updateComparisonButton; simpl.
  rewrite Hbtn, (size_pos_members pg Hne).
  destruct (parameters_compare_href _ Hne Hplain) as [Hpath Hpars].
  repeat split; try assumption.
  - now rewrite Hpars.
  - rewrite Hpars. apply NoDup_map_package_id, JSSet.NoDup_entries.
Qed.

Lemma C2_link_enumerates_plain_members_witness :
  let pg := toggles ["p1"; "p2"] (initial None) in
  let shown := mkPage (selectedPackages pg) (Some hidden_button) [] in
  exists b',
    compareBtn (exec updateComparisonButton shown) = Some b' /\
    display b' = "block" /\
    href b' = compare_href (members shown) /\
    URI.parameters (href b') = map package_id (members shown) /\
    one_parameter_per_member (href b') (members shown).
Proof.
  apply (C2_link_enumerates_plain_members
           (mkPage (selectedPackages (toggles ["p1"; "p2"] (initial None)))
                   (Some hidden_button) [])
           hidden_button);
    [reflexivity | discriminate | reflexivity].
Defined.

(** C2, counterexample to the claim as worded: the identifier is written
    into the link as it is, so one selected identifier that contains [&]
    reads back as two [package_id] parameters, here twice the same one. *)
Lemma C2_ampersand_identifier_reads_as_two_parameters :
  let pg := toggle "p1&package_id=p1" (initial (Some hidden_button)) in
  members pg = ["p1&package_id=p1"] /\
  compareBtn pg
    = Some (mkButton "/compare?package_id=p1&package_id=p1" "block") /\
  URI.parameters "/compare?package_id=p1&package_id=p1"
    = [("package_id", "p1"); ("package_id", "p1")] /\
  ~ one_parameter_per_member "/compare?package_id=p1&package_id=p1"
                             (members pg).
Proof.
  repeat split. intros (_ & Hperm & _).
  apply Permutation_length in Hperm. discriminate Hperm.
Qed.

(** C3. When [pid] is not selected and exactly 3 identifiers are, the call
    leaves the Set as it is, raises one [alert] with the text "You can
    compare up to 3 packages at a time.", and completes with a value like any
    other call: nothing is thrown. *)
Theorem C3_rejection_at_capacity (pid : string) (pg : Page) :
  JSSet.has pid (selectedPackages pg) = false ->
  JSSet.size (selectedPackages pg) = 3 ->
  exists pg',
    togglePackageComparison pid pg = (undefined, pg') /\
    selectedPackages pg' = selectedPackages pg /\
    alerts pg' = alerts pg ++ ["You can compare up to 3 packages at a time."].
Proof.
  intros Hhas Hsize. exists (toggle pid pg). split; [|split].
  - unfold toggle, exec at 1. now rewrite togglePackageComparison_eq.
  - rewrite selectedPackages_toggle; cbv zeta. now rewrite Hhas, Hsize.
  - rewrite alerts_toggle; cbv zeta. now rewrite Hhas, Hsize.
Qed.

Lemma C3_rejection_at_capacity_witness :
  exists pg',
    togglePackageComparison "p4" (toggles ["p1"; "p2"; "p3"] (initial None))
      = (undefined, pg') /\
    selectedPackages pg'
      = selectedPackages (toggles ["p1"; "p2"; "p3"] (initial None)) /\
    alerts pg' = [] ++ ["You can compare up to 3 packages at a time."].
Proof.
  apply (C3_rejection_at_capacity
           "p4" (toggles ["p1"; "p2"; "p3"] (initial None)));
    reflexivity.
Defined.

(** C4 (what the code does). After [togglePackageComparison("p1")] twice on
    a page whose button starts hidden, the Set is empty again and the button
    is still displayed with the link of the deselected package. *)
Theorem C4_link_outlives_the_selection :
  let pg := toggles ["p1"; "p1"] (initial (Some hidden_button)) in
  members pg = [] /\
  compareBtn pg = Some (mkButton "/compare?package_id=p1" "block").
Proof. split; reflexivity. Qed.

(** C5 (as the code has it). A call evaluates to [undefined] whatever it
    did: the updated membership is left in the page-global Set, and the
    three outcomes show in the page only. Removal leaves one entry fewer and
    no new notice, addition one entry more and no new notice, rejection the
    same entries and one new notice. *)
Theorem C5_outcome_is_in_the_page_not_the_value (pid : string) (pg : Page) :
  eval (togglePackageComparison pid) pg = undefined /\
  if JSSet.has pid (selectedPackages pg) then
    observed_outcome pg (toggle pid pg) = removed /\
    members (toggle pid pg) = JSSet.remove pid (members pg) /\
    JSSet.has pid (selectedPackages (toggle pid pg)) = false /\
    S (JSSet.size (selectedPackages (toggle pid pg)))
      = JSSet.size (selectedPackages pg) /\
    alerts (toggle pid pg) = alerts pg
  else if (JSSet.size (selectedPackages pg) <? 3)%nat then
    observed_outcome pg (toggle pid pg) = added /\
    members (toggle pid pg) = members pg ++ [pid] /\
    JSSet.has pid (selectedPackages (toggle pid pg)) = true /\
    JSSet.size (selectedPackages (toggle pid pg))
      = S (JSSet.size (selectedPackages pg)) /\
    alerts (toggle pid pg) = alerts pg
  else
    observed_outcome pg (toggle pid pg) = rejected_at_capacity /\
    selectedPackages (toggle pid pg) = selectedPackages pg /\
    alerts (toggle pid pg) = alerts pg ++ [limit_notice].
Proof.
  split; [unfold eval; now rewrite togglePackageComparison_eq|].
  unfold observed_outcome, members, JSSet.Array_from.
  rewrite alerts_toggle, selectedPackages_toggle; cbv zeta.
  destruct (JSSet.has pid (selectedPackages pg)) eqn:Hhas.
  - pose proof (JSSet.size_delete _ _ Hhas) as Hs.
    repeat split.
    + rewrite Nat.ltb_irrefl.
      destruct (Nat.ltb_spec
                  (JSSet.size (JSSet.delete pid (selectedPackages pg)))
                  (JSSet.size (selectedPackages pg)));
        [reflexivity | lia].
    + now rewrite JSSet.has_delete, String.eqb_refl.
    + exact Hs.
  - destruct (JSSet.size (selectedPackages pg) <? 3)%nat.
    + repeat split.
      * rewrite Nat.ltb_irrefl, (JSSet.size_add _ _ Hhas).
        destruct (Nat.ltb_spec (S (JSSet.size (selectedPackages pg)))
                               (JSSet.size (selectedPackages pg)));
          [lia | reflexivity].
      * now rewrite JSSet.entries_add, Hhas.
      * now rewrite JSSet.has_add, String.eqb_refl.
      * now apply JSSet.size_add.
    + repeat split.
      rewrite List.length_app; simpl.
      destruct (Nat.ltb_spec (List.length (alerts pg))
                             (List.length (alerts pg) + 1));
        [reflexivity | lia].
Qed.

(** C5, counterexample to the claim as worded: a call that adds, a call that
    removes and a call that is rejected all hand back the same value,
    [undefined], so the value returned tells the three apart in no way, and
    it carries no membership. *)
Lemma C5_returned_value_does_not_distinguish :
  let full := toggles ["p1"; "p2"; "p3"] (initial None) in
  members (toggle "p1" (initial None)) = ["p1"] /\
  members (toggle "p1" full) = ["p2"; "p3"] /\
  members (toggle "p4" full) = members full /\
  alerts (toggle "p4" full) = [limit_notice] /\
  eval (togglePackageComparison "p1") (initial None) = undefined /\
  eval (togglePackageComparison "p1") full = undefined /\
  eval (togglePackageComparison "p4") full = undefined.
Proof. repeat split. Qed.

(** C6. When [pid] is selected, the call removes it: [pid] is no longer a
    member, every other membership is as before, the Set has exactly one
    entry fewer, and no notice is raised, whatever the size of the Set. *)
Theorem C6_toggle_removes_a_member (pid : string) (pg : Page) :
  JSSet.has pid (selectedPackages pg) = true ->
  JSSet.has pid (selectedPackages (toggle pid pg)) = false /\
  (forall other, other <> pid ->
     JSSet.has other (selectedPackages (toggle pid pg))
       = JSSet.has other (selectedPackages pg)) /\
  S (JSSet.size (selectedPackages (toggle pid pg)))
    = JSSet.size (selectedPackages pg) /\
  alerts (toggle pid pg) = alerts pg.
Proof.
  intros Hhas.
  rewrite alerts_toggle, selectedPackages_toggle; cbv zeta. rewrite Hhas.
  repeat split.
  - now rewrite JSSet.has_delete, String.eqb_refl.
  - intros other Hne. rewrite JSSet.has_delete.
    destruct (String.eqb_spec pid other); [congruence | reflexivity].
  - now apply JSSet.size_delete.
Qed.

Lemma C6_toggle_removes_a_member_witness :
  JSSet.has "p2" (selectedPackages (toggle "p2" five_selected)) = false /\
  (forall other, other <> "p2" ->
     JSSet.has other (selectedPackages (toggle "p2" five_selected))
       = JSSet.has other (selectedPackages five_selected)) /\
  S (JSSet.size (selectedPackages (toggle "p2" five_selected)))
    = JSSet.size (selectedPackages five_selected) /\
  alerts (toggle "p2" five_selected) = alerts five_selected.
Proof.
  apply (C6_toggle_removes_a_member "p2" five_selected). reflexivity.
Defined.

(** C7. From a page that a run of the script can be in, two calls in a row
    with the same identifier leave every identifier's membership as it was;
    the members after are the members before, up to the order of
    iteration. *)
Theorem C7_double_toggle_restores_membership (pid : string) (pg : Page) :
  reachable pg ->
  (forall x, JSSet.has x (selectedPackages (toggle pid (toggle pid pg)))
             = JSSet.has x (selectedPackages pg)) /\
  Permutation (members (toggle pid (toggle pid pg))) (members pg).
Proof.
  intros Hr. apply reachable_size_le in Hr.
  assert (Hmem : forall x,
             JSSet.has x (selectedPackages (toggle pid (toggle pid pg)))
             = JSSet.has x (selectedPackages pg)).
  { intros x. rewrite !selectedPackages_toggle; cbv zeta.
    destruct (JSSet.has pid (selectedPackages pg)) eqn:Hhas.
    - rewrite JSSet.has_delete, String.eqb_refl; simpl.
      pose proof (JSSet.size_delete _ _ Hhas) as Hs.
      destruct (Nat.ltb_spec (JSSet.size (JSSet.delete pid (selectedPackages pg))) 3);
        [|lia].
      rewrite JSSet.has_add, JSSet.has_delete.
      destruct (String.eqb_spec pid x) as [<-|]; simpl; [now rewrite Hhas | reflexivity].
    - destruct (JSSet.size (selectedPackages pg) <? 3)%nat eqn:Hlt.
      + rewrite JSSet.has_add, String.eqb_refl; simpl.
        rewrite JSSet.has_delete, JSSet.has_add.
        destruct (String.eqb_spec pid x) as [<-|]; simpl; [now rewrite Hhas | reflexivity].
      + now rewrite Hhas, Hlt. }
  split; [exact Hmem|].
  apply NoDup_Permutation; try apply JSSet.NoDup_entries.
  intros x. unfold members, JSSet.Array_from.
  rewrite <- !JSSet.mem_In. fold (JSSet.has x (selectedPackages (toggle pid (toggle pid pg)))).
  fold (JSSet.has x (selectedPackages pg)). now rewrite Hmem.
Qed.

Lemma C7_double_toggle_restores_membership_witness :
  let pg := toggles ["p1"; "p2"] (initial (Some hidden_button)) in
  (forall x, JSSet.has x (selectedPackages (toggle "p1" (toggle "p1" pg)))
             = JSSet.has x (selectedPackages pg)) /\
  Permutation (members (toggle "p1" (toggle "p1" pg))) (members pg).
Proof.
  apply (C7_double_toggle_restores_membership
           "p1" (toggles ["p1"; "p2"] (initial (Some hidden_button)))).
  exact (reachable_toggle "p2" _
           (reachable_toggle "p1" _ (reachable_initial (Some hidden_button)))).
Defined.

(** C8 (as the code has it). Two histories from the same page that end in
    the same non-empty membership: each leaves on the button, when there
    is one, the link written from its own Set in iteration order; when that
    order is the same in both, the button ends the same, link included. For
    identifiers without [&] and [#] the two links carry the same
    [package_id] parameters up to their order, and the links are the same
    only when the orders of iteration are. The link follows insertion
    order, not membership alone. *)
Theorem C8_link_follows_insertion_order
        (btn : option Button) (h1 h2 : list string) :
  let pg1 := toggles h1 (initial btn) in
  let pg2 := toggles h2 (initial btn) in
  (forall x, JSSet.has x (selectedPackages pg1)
             = JSSet.has x (selectedPackages pg2)) ->
  members pg1 <> [] ->
  compareBtn pg1
    = option_map (fun _ => mkButton (compare_href (members pg1)) "block") btn /\
  compareBtn pg2
    = option_map (fun _ => mkButton (compare_href (members pg2)) "block") btn /\
  Permutation (members pg1) (members pg2) /\
  (members pg1 = members pg2 -> compareBtn pg1 = compareBtn pg2) /\
  (forallb plain (members pg1) = true ->
   Permutation (URI.parameters (compare_href (members pg1)))
               (URI.parameters (compare_href (members pg2))) /\
   (compare_href (members pg1) = compare_href (members pg2) ->
    members pg1 = members pg2)).
Proof.
  intros pg1 pg2 Hsame Hne.
  assert (Hperm : Permutation (members pg1) (members pg2)).
  { apply NoDup_Permutation; try apply JSSet.NoDup_entries.
    intros x. unfold members, JSSet.Array_from.
    rewrite <- !JSSet.mem_In. specialize (Hsame x). unfold JSSet.has in Hsame.
    now rewrite Hsame. }
  assert (Hne2 : members pg2 <> []).
  { intros Hnil. rewrite Hnil in Hperm.
    apply Permutation_sym, Permutation_nil in Hperm. contradiction. }
  assert (H1 : h1 <> []) by (intros ->; now apply Hne).
  assert (H2 : h2 <> []) by (intros ->; now apply Hne2).
  assert (Hb1 : compareBtn pg1
                = option_map
                    (fun _ => mkButton (compare_href (members pg1)) "block") btn)
    by apply (compareBtn_toggles h1 _ H1 Hne).
  assert (Hb2 : compareBtn pg2
                = option_map
                    (fun _ => mkButton (compare_href (members pg2)) "block") btn)
    by apply (compareBtn_toggles h2 _ H2 Hne2).
  split; [exact Hb1|]. split; [exact Hb2|]. split; [exact Hperm|]. split.
  - intros Heq. now rewrite Hb1, Hb2, Heq.
  - intros Hplain1.
    assert (Hplain2 : forallb plain (members pg2) = true).
    { rewrite forallb_forall in *. intros x Hx. apply Hplain1.
      apply Permutation_sym in Hperm. now apply (Permutation_in x Hperm). }
    destruct (parameters_compare_href _ Hne Hplain1) as [_ Hp1].
    destruct (parameters_compare_href _ Hne2 Hplain2) as [_ Hp2].
    split.
    + rewrite Hp1, Hp2. now apply Permutation_map.
    + intros Hlink.
      assert (Hpars : map package_id (members pg1)
                      = map package_id (members pg2))
        by now rewrite <- Hp1, <- Hp2, Hlink.
      apply (f_equal (map snd)) in Hpars.
      rewrite !map_map in Hpars; simpl in Hpars.
      now rewrite !map_id in Hpars.
Qed.

Lemma C8_link_follows_insertion_order_witness :
  let pg1 := toggles ["a"; "b"] (initial (Some hidden_button)) in
  let pg2 := toggles ["b"; "c"; "a"; "c"] (initial (Some hidden_button)) in
  compareBtn pg1
    = option_map (fun _ => mkButton (compare_href (members pg1)) "block")
                 (Some hidden_button) /\
  compareBtn pg2
    = option_map (fun _ => mkButton (compare_href (members pg2)) "block")
                 (Some hidden_button) /\
  Permutation (members pg1) (members pg2) /\
  (members pg1 = members pg2 -> compareBtn pg1 = compareBtn pg2) /\
  (forallb plain (members pg1) = true ->
   Permutation (URI.parameters (compare_href (members pg1)))
               (URI.parameters (compare_href (members pg2))) /\
   (compare_href (members pg1) = compare_href (members pg2) ->
    members pg1 = members pg2)).
Proof.
  apply (C8_link_follows_insertion_order
           (Some hidden_button) ["a"; "b"] ["b"; "c"; "a"; "c"]).
  - intros x. change (JSSet.mem x ["a"; "b"] = JSSet.mem x ["b"; "a"]). simpl.
    destruct (String.eqb x "a"), (String.eqb x "b"); reflexivity.
  - discriminate.
Defined.

(** C8, counterexample to the claim as worded: selecting "a" then "b", and
    "b" then "a", end in the same membership and in different links. *)
Lemma C8_same_membership_different_links :
  let pg1 := toggles ["a"; "b"] (initial (Some hidden_button)) in
  let pg2 := toggles ["b"; "a"] (initial (Some hidden_button)) in
  (forall x, JSSet.has x (selectedPackages pg1)
             = JSSet.has x (selectedPackages pg2)) /\
  compareBtn pg1 = Some (mkButton "/compare?package_id=a&package_id=b" "block") /\
  compareBtn pg2 = Some (mkButton "/compare?package_id=b&package_id=a" "block") /\
  compareBtn pg1 <> compareBtn pg2.
Proof.
  repeat split; try discriminate.
  intros x. change (JSSet.mem x ["a"; "b"] = JSSet.mem x ["b"; "a"]). simpl.
  destruct (String.eqb x "a"), (String.eqb x "b"); reflexivity.
Qed.

(** C9. The call does not look at the identifier: with fewer than 3 entries,
    any string that is not yet a member, the empty string included, is
    appended to the Set, which grows by one, and no notice is raised. *)
Theorem C9_any_string_is_added (pid : string) (pg : Page) :
  JSSet.has pid (selectedPackages pg) = false ->
  JSSet.size (selectedPackages pg) < 3 ->
  members (toggle pid pg) = members pg ++ [pid] /\
  JSSet.has pid (selectedPackages (toggle pid pg)) = true /\
  JSSet.size (selectedPackages (toggle pid pg))
    = S (JSSet.size (selectedPackages pg)) /\
  alerts (toggle pid pg) = alerts pg.
Proof.
  intros Hhas Hlt. apply Nat.ltb_lt in Hlt. unfold members.
  rewrite alerts_toggle, selectedPackages_toggle; cbv zeta.
  rewrite Hhas, Hlt. repeat split.
  - unfold JSSet.Array_from. now rewrite JSSet.entries_add, Hhas.
  - now rewrite JSSet.has_add, String.eqb_refl.
  - now apply JSSet.size_add.
Qed.

Lemma C9_any_string_is_added_witness :
  let pg := toggles ["p1"; "p2"] (initial (Some hidden_button)) in
  members (toggle EmptyString pg) = members pg ++ [EmptyString] /\
  JSSet.has EmptyString (selectedPackages (toggle EmptyString pg)) = true /\
  JSSet.size (selectedPackages (toggle EmptyString pg))
    = S (JSSet.size (selectedPackages pg)) /\
  alerts (toggle EmptyString pg) = alerts pg.
Proof.
  apply (C9_any_string_is_added
           EmptyString (toggles ["p1"; "p2"] (initial (Some hidden_button))));
    [reflexivity | vm_compute; lia].
Defined.

(* ------------------------------------------------------------------------- *)
(** ** Properties of the map wrapper ([mapbox.js])                           *)
(* ------------------------------------------------------------------------- *)

(** C10. Without a handle ([this.map] is [null]: the SDK failed to
    initialise, or the object was destroyed), every call of [addMarker]
    returns [null] and leaves the object, its [markers] list included, as it
    was; so does any number of calls in a row. Nothing is thrown. *)
Theorem C10_addMarker_without_map_returns_null
        {Num : Type} (this : ExploreEaseMap.Instance Num)
        (calls : list (ExploreEaseMap.LngLat Num * ExploreEaseMap.Properties)) :
  ExploreEaseMap.this_map this = None ->
  (forall at_ properties,
     ExploreEaseMap.addMarker at_ properties this = (None, this)) /\
  ExploreEaseMap.addMarkers calls this
    = (List.map (fun _ => None) calls, this) /\
  ExploreEaseMap.this_markers (snd (ExploreEaseMap.addMarkers calls this))
    = ExploreEaseMap.this_markers this.
Proof.
  intros Hnull.
  assert (Hall : ExploreEaseMap.addMarkers calls this
                 = (List.map (fun _ => None) calls, this)).
  { induction calls as [|[at_ properties] rest IH]; [reflexivity|].
    simpl. now rewrite (addMarker_without_map _ _ _ Hnull), IH. }
  repeat split.
  - intros at_ properties. now apply addMarker_without_map.
  - exact Hall.
  - now rewrite Hall.
Qed.

Lemma C10_addMarker_without_map_returns_null_witness :
  let calls :=
    [((77, 28), ExploreEaseMap.mkProperties (Some "<h6>Delhi</h6>"));
     ((88, 22), ExploreEaseMap.mkProperties None)] in
  (forall at_ properties,
     ExploreEaseMap.addMarker at_ properties mapless = (None, mapless)) /\
  ExploreEaseMap.addMarkers calls mapless = ([None; None], mapless) /\
  ExploreEaseMap.this_markers (snd (ExploreEaseMap.addMarkers calls mapless))
    = [].
Proof.
  apply (C10_addMarker_without_map_returns_null
           mapless
           [((77, 28), ExploreEaseMap.mkProperties (Some "<h6>Delhi</h6>"));
            ((88, 22), ExploreEaseMap.mkProperties None)]).
  reflexivity.
Defined.

(* ------------------------------------------------------------------------- *)
(** ** More about the selection ([main.js] 116-137)                          *)
(* ------------------------------------------------------------------------- *)

(** The selection and the notices of a call do not depend on the button. *)
Lemma toggle_ignores_button pid pg1 pg2 :
  selectedPackages pg1 = selectedPackages pg2 ->
  alerts pg1 = alerts pg2 ->
  selectedPackages (toggle pid pg1) = selectedPackages (toggle pid pg2) /\
  alerts (toggle pid pg1) = alerts (toggle pid pg2).
Proof.
  intros Hs Ha. rewrite !selectedPackages_toggle, !alerts_toggle; cbv zeta.
  now rewrite Hs, Ha.
Qed.

(** Members stay among the identifiers a history has named. *)
Lemma members_toggle_incl pid pg (D : list string) :
  In pid D -> incl (members pg) D -> incl (members (toggle pid pg)) D.
Proof.
  intros Hp Hincl x. unfold members, JSSet.Array_from.
  rewrite selectedPackages_toggle; cbv zeta.
  destruct (JSSet.has pid (selectedPackages pg)) eqn:Hhas;
    [|destruct (JSSet.size (selectedPackages pg) <? 3)%nat].
  - rewrite JSSet.entries_delete. unfold JSSet.remove.
    rewrite filter_In. intros [Hx _]. now apply Hincl.
  - rewrite JSSet.entries_add, Hhas, in_app_iff.
    intros [Hx | [<- | []]]; [now apply Hincl | assumption].
  - apply Hincl.
Qed.

(** X1. Whatever the page and its button were, after one or more calls that
    leave a non-empty selection the button is displayed and its link is the
    one of the members as they now are: nothing of an earlier selection is
    left in it. *)
Theorem X1_button_shows_current_selection
        (b : Button) (ids : list string) (pg : Page) :
  compareBtn pg = Some b ->
  ids <> [] ->
  members (toggles ids pg) <> [] ->
  compareBtn (toggles ids pg)
  = Some (mkButton (compare_href (members (toggles ids pg))) "block").
Proof.
  intros Hb Hids Hne. now rewrite (compareBtn_toggles ids pg Hids Hne), Hb.
Qed.

Lemma X1_button_shows_current_selection_witness :
  let pg := mkPage JSSet.empty (Some (mkButton "/old" "inline")) ["x"] in
  compareBtn (toggles ["p1"; "p2"; "p1"] pg)
  = Some (mkButton (compare_href (members (toggles ["p1"; "p2"; "p1"] pg)))
                   "block").
Proof.
  apply (X1_button_shows_current_selection
           (mkButton "/old" "inline") ["p1"; "p2"; "p1"]
           (mkPage JSSet.empty (Some (mkButton "/old" "inline")) ["x"]));
    [reflexivity | discriminate | discriminate].
Defined.

(** X2. A history that names at most three different identifiers never
    raises the notice, however many calls it makes. *)
Theorem X2_three_identifiers_never_alert
        (btn : option Button) (ids : list string) :
  List.length (nodup string_dec ids) <= 3 ->
  alerts (toggles ids (initial btn)) = [].
Proof.
  intros Hthree.
  assert (Hgen : forall l pg,
             incl l ids -> incl (members pg) ids -> alerts pg = [] ->
             alerts (toggles l pg) = []).
  { induction l as [|pid l IH]; intros pg Hl Hm Ha; [exact Ha|].
    change (toggles (pid :: l) pg) with (toggles l (toggle pid pg)).
    assert (Hp : In pid ids) by (apply Hl; now left).
    apply IH.
    - intros x Hx. apply Hl. now right.
    - now apply members_toggle_incl.
    - rewrite alerts_toggle; cbv zeta.
      destruct (JSSet.has pid (selectedPackages pg)) eqn:Hhas; [exact Ha|].
      destruct (Nat.ltb_spec (JSSet.size (selectedPackages pg)) 3) as [|Hfull];
        [exact Ha|].
      exfalso.
      assert (Hin : In pid (members pg)).
      { apply (NoDup_length_incl (l := members pg) (l' := nodup string_dec ids)).
        - apply JSSet.NoDup_entries.
        - unfold members, JSSet.Array_from.
          unfold JSSet.size in Hfull. lia.
        - intros x Hx. apply nodup_In. now apply Hm.
        - now apply nodup_In. }
      apply JSSet.mem_In in Hin. unfold JSSet.has in Hhas.
      unfold members, JSSet.Array_from in Hin. congruence. }
  apply Hgen; [apply incl_refl | intros x [] | reflexivity].
Qed.

Lemma X2_three_identifiers_never_alert_witness :
  alerts (toggles ["a"; "b"; "c"; "a"; "a"; "b"; "c"; "c"] (initial None)) = [].
Proof.
  apply (X2_three_identifiers_never_alert
           None ["a"; "b"; "c"; "a"; "a"; "b"; "c"; "c"]).
  vm_compute. lia.
Defined.

(** X3. Whatever a history does, the only dialog text it ever raises is the
    limit notice, at most once per call, after the dialogs that were there. *)
Theorem X3_only_the_limit_notice (ids : list string) (pg : Page) :
  exists n,
    n <= List.length ids /\
    alerts (toggles ids pg)
    = alerts pg ++ repeat "You can compare up to 3 packages at a time." n.
Proof.
  revert pg. induction ids as [|pid ids IH]; intros pg.
  - exists 0. split; [simpl; lia | simpl; now rewrite app_nil_r].
  - change (toggles (pid :: ids) pg) with (toggles ids (toggle pid pg)).
    destruct (IH (toggle pid pg)) as (n & Hn & Heq). rewrite Heq.
    rewrite alerts_toggle; cbv zeta.
    destruct (JSSet.has pid (selectedPackages pg));
      [|destruct (JSSet.size (selectedPackages pg) <? 3)%nat].
    + exists n. split; [simpl; lia | reflexivity].
    + exists n. split; [simpl; lia | reflexivity].
    + exists (S n). split; [simpl; lia|].
      now rewrite <- app_assoc.
Qed.

(** X4. The button has no say in the selection: two pages that agree on the
    Set and on the dialogs raised still agree on both after the same
    history, whatever their buttons are, present or not. *)
Theorem X4_selection_independent_of_button
        (ids : list string) (pg1 pg2 : Page) :
  selectedPackages pg1 = selectedPackages pg2 ->
  alerts pg1 = alerts pg2 ->
  selectedPackages (toggles ids pg1) = selectedPackages (toggles ids pg2) /\
  alerts (toggles ids pg1) = alerts (toggles ids pg2).
Proof.
  revert pg1 pg2. induction ids as [|pid ids IH]; intros pg1 pg2 Hs Ha.
  - now split.
  - change (toggles (pid :: ids) pg1) with (toggles ids (toggle pid pg1)).
    change (toggles (pid :: ids) pg2) with (toggles ids (toggle pid pg2)).
    destruct (toggle_ignores_button pid pg1 pg2 Hs Ha). now apply IH.
Qed.

Lemma X4_selection_independent_of_button_witness :
  let ids := ["p1"; "p2"; "p3"; "p4"; "p2"] in
  selectedPackages (toggles ids (initial None))
    = selectedPackages (toggles ids (initial (Some hidden_button))) /\
  alerts (toggles ids (initial None))
    = alerts (toggles ids (initial (Some hidden_button))).
Proof.
  apply (X4_selection_independent_of_button
           ["p1"; "p2"; "p3"; "p4"; "p2"]
           (initial None) (initial (Some hidden_button)));
    reflexivity.
Defined.

(** X5. For identifiers without [&] and [#] the link can be read back: its
    [package_id] values are the members in order, so two different
    non-empty selections of such identifiers never share a link. *)
Theorem X5_link_reads_back (ids1 ids2 : list string) :
  ids1 <> [] -> ids2 <> [] ->
  forallb plain ids1 = true -> forallb plain ids2 = true ->
  map snd (URI.parameters (compare_href ids1)) = ids1 /\
  (compare_href ids1 = compare_href ids2 -> ids1 = ids2).
Proof.
  intros Hn1 Hn2 Hp1 Hp2.
  assert (Hback : forall ids, ids <> [] -> forallb plain ids = true ->
                              map snd (URI.parameters (compare_href ids)) = ids).
  { intros ids Hn Hp.
    destruct (parameters_compare_href ids Hn Hp) as [_ ->].
    rewrite map_map; simpl. apply map_id. }
  split; [now apply Hback|].
  intros Heq. rewrite <- (Hback ids1 Hn1 Hp1), <- (Hback ids2 Hn2 Hp2).
  now rewrite Heq.
Qed.

Lemma X5_link_reads_back_witness :
  map snd (URI.parameters (compare_href ["7"; "a=b"; ""])) = ["7"; "a=b"; ""] /\
  (compare_href ["7"; "a=b"; ""] = compare_href ["12"] ->
   ["7"; "a=b"; ""] = ["12"]).
Proof.
  apply (X5_link_reads_back ["7"; "a=b"; ""] ["12"]);
    [discriminate | discriminate | reflexivity | reflexivity].
Defined.

(** X6. Removing the only member empties the Set and leaves the button
    exactly as it was before the call, displayed or not, link included. *)
Theorem X6_last_removal_leaves_button (pid : string) (pg : Page) :
  members pg = [pid] ->
  members (toggle pid pg) = [] /\
  compareBtn (toggle pid pg) = compareBtn pg.
Proof.
  intros Hm.
  assert (Hhas : JSSet.has pid (selectedPackages pg) = true).
  { unfold JSSet.has. unfold members, JSSet.Array_from in Hm. rewrite Hm.
    simpl. now rewrite String.eqb_refl. }
  assert (Hempty : members (toggle pid pg) = []).
  { unfold members, JSSet.Array_from.
    rewrite selectedPackages_toggle; cbv zeta. rewrite Hhas.
    rewrite JSSet.entries_delete.
    unfold members, JSSet.Array_from in Hm. rewrite Hm.
    simpl. now rewrite String.eqb_refl. }
  split; [exact Hempty|].
  rewrite compareBtn_toggle, (size_zero_members _ Hempty).
  now destruct (compareBtn pg).
Qed.

Lemma X6_last_removal_leaves_button_witness :
  let pg := toggles ["p9"] (initial (Some hidden_button)) in
  members (toggle "p9" pg) = [] /\
  compareBtn (toggle "p9" pg) = compareBtn pg.
Proof.
  apply (X6_last_removal_leaves_button
           "p9" (toggles ["p9"] (initial (Some hidden_button)))).
  reflexivity.
Defined.

(* ------------------------------------------------------------------------- *)
(** ** Toast notifications: facts                                            *)
(* ------------------------------------------------------------------------- *)

Lemma appendChild_length at_ toast els :
  List.length (Toasts.appendChild at_ toast els) = List.length els.
Proof.
  revert at_. induction els as [|e rest IH]; intros [|n]; simpl; auto.
Qed.

Lemma appendChild_count at_ toast els :
  List.length (filter Toasts.is_toast_container
                      (Toasts.appendChild at_ toast els))
  = List.length (filter Toasts.is_toast_container els).
Proof.
  revert at_. induction els as [|e rest IH]; intros [|n]; simpl; auto.
  - unfold Toasts.is_toast_container; simpl.
    destruct (String.eqb (Toasts.el_id e) "toast-container"); reflexivity.
  - destruct (Toasts.is_toast_container e); simpl; now rewrite IH.
Qed.


(** What the lookup finds is an element with the id, and appending to it
    changes its children only. *)
Lemma getElementById_found els at_ toast :
  Toasts.getElementById_toast_container els = Some at_ ->
  exists e,
    nth_error els at_ = Some e /\
    nth_error (Toasts.appendChild at_ toast els) at_
    = Some (Toasts.mkElement (Toasts.el_id e) (Toasts.el_className e)
                             (Toasts.el_zIndex e)
                             (Toasts.el_children e ++ [toast])).
Proof.
  revert at_. induction els as [|e rest IH]; intros at_; simpl; [discriminate|].
  destruct (Toasts.is_toast_container e).
  - intros [= <-]. exists e. split; reflexivity.
  - destruct (Toasts.getElementById_toast_container rest) as [i|]; simpl;
      [|discriminate].
    intros [= <-]. destruct (IH i eq_refl) as (e' & H1 & H2).
    exists e'. split; assumption.
Qed.

(** When the lookup finds nothing, no element has the id, and an element
    with the id appended to the body is what the next lookup finds. *)
Lemma getElementById_none els c :
  Toasts.getElementById_toast_container els = None ->
  Toasts.is_toast_container c = true ->
  filter Toasts.is_toast_container els = [] /\
  Toasts.getElementById_toast_container (els ++ [c])
  = Some (List.length els).
Proof.
  intros Hnone Hc. induction els as [|e rest IH]; simpl in *.
  - now rewrite Hc.
  - destruct (Toasts.is_toast_container e); [discriminate|].
    destruct (Toasts.getElementById_toast_container rest); [discriminate|].
    destruct (IH eq_refl) as [H1 H2]. now rewrite H1, H2.
Qed.



Lemma containers_showToast message type doc :
  Toasts.containers (Toasts.showToast message type doc)
  = Nat.max 1 (Toasts.containers doc).
Proof.
  unfold Toasts.containers, Toasts.showToast.
  destruct (Toasts.getElementById_toast_container (Toasts.elements doc))
    as [at_|] eqn:Hfind; simpl.
  - rewrite appendChild_count.
    destruct (getElementById_found _ _
                (Toasts.mkToast 0 EmptyString EmptyString EmptyString true true)
                Hfind) as (e & Hnth & _).
    assert (Hin : In e (filter Toasts.is_toast_container (Toasts.elements doc))).
    { apply filter_In. split; [now apply nth_error_In in Hnth|].
      clear -Hfind Hnth. revert at_ Hfind Hnth.
      induction (Toasts.elements doc) as [|x rest IH]; intros at_; simpl;
        [discriminate|].
      destruct (Toasts.is_toast_container x) eqn:Hx.
      - intros [= <-] [= <-]. exact Hx.
      - destruct (Toasts.getElementById_toast_container rest) as [i|]; simpl;
          [|discriminate].
        intros [= <-] Hnth. now apply (IH i). }
    destruct (filter Toasts.is_toast_container (Toasts.elements doc));
      [contradiction | simpl; lia].
  - set (c := Toasts.mkElement "toast-container"
                "toast-container position-fixed top-0 end-0 p-3" "9999" []).
    destruct (getElementById_none _ c Hfind eq_refl) as [Hnone _].
    rewrite appendChild_count, filter_app, Hnone. reflexivity.
Qed.




(** The numbering of nodes survives a call, so the toast of a later call can
    be told from every earlier one. *)
Lemma numbered_showToast message type doc :
  Toasts.numbered doc -> Toasts.numbered (Toasts.showToast message type doc).
Proof.
  unfold Toasts.numbered, Toasts.showToast. intros Hnum.
  assert (Happend : forall els at_ toast bound,
             Forall (fun e => Forall (fun t => Toasts.toast_node t < bound)
                                     (Toasts.el_children e)) els ->
             Toasts.toast_node toast < bound ->
             Forall (fun e => Forall (fun t => Toasts.toast_node t < bound)
                                     (Toasts.el_children e))
                    (Toasts.appendChild at_ toast els)).
  { induction els as [|e rest IH]; intros [|n] toast bound Hall Ht; simpl;
      try constructor; inversion Hall; subst; auto.
    simpl. apply Forall_app. split; [assumption | now repeat constructor]. }
  assert (Hweak : forall els a b,
             a <= b ->
             Forall (fun e => Forall (fun t => Toasts.toast_node t < a)
                                     (Toasts.el_children e)) els ->
             Forall (fun e => Forall (fun t => Toasts.toast_node t < b)
                                     (Toasts.el_children e)) els).
  { intros els a b Hab Hall. eapply Forall_impl; [|exact Hall].
    intros e He. eapply Forall_impl; [|exact He]. simpl. intros t Ht. lia. }
  destruct (Toasts.getElementById_toast_container (Toasts.elements doc));
    simpl; apply Happend; simpl; try lia.
  - apply (Hweak _ (Toasts.fresh doc)); [lia | assumption].
  - apply Forall_app. split.
    + apply (Hweak _ (Toasts.fresh doc)); [lia | assumption].
    + repeat constructor.
Qed.


Lemma containers_in_toasts_showToast containers_in message type doc :
  Toasts.containers_in_toasts containers_in
    (Toasts.showToast message type doc)
  = Toasts.containers_in_toasts containers_in doc
    + containers_in (Toasts.toast_markup message).
Proof.
  assert (Happend : forall els at_ toast,
             at_ < List.length els ->
             list_sum
               (map (fun e =>
                       list_sum
                         (map (fun t => containers_in (Toasts.toast_innerHTML t))
                              (Toasts.el_children e)))
                    (Toasts.appendChild at_ toast els))
             = list_sum
                 (map (fun e =>
                         list_sum
                           (map (fun t => containers_in (Toasts.toast_innerHTML t))
                                (Toasts.el_children e)))
                      els)
               + containers_in (Toasts.toast_innerHTML toast)).
  { induction els as [|e rest IH]; intros [|n] toast Hlt; simpl in *;
      try lia.
    - rewrite map_app, list_sum_app; simpl. lia.
    - rewrite IH by lia. lia. }
  unfold Toasts.containers_in_toasts, Toasts.showToast.
  destruct (Toasts.getElementById_toast_container (Toasts.elements doc))
    as [at_|] eqn:Hfind; simpl.
  - rewrite Happend; [reflexivity|].
    destruct (getElementById_found _ _
                (Toasts.mkToast 0 EmptyString EmptyString EmptyString true true)
                Hfind) as (e & Hnth & _).
    apply nth_error_Some. congruence.
  - rewrite Happend by (rewrite List.length_app; simpl; lia).
    simpl. rewrite map_app, list_sum_app; simpl. lia.
Qed.

(** X8. [showToast] makes the container at most once. From a document whose
    toasts carry no element with the id [toast-container], after one or
    more calls the elements with that id are: outside the toasts, one if
    there was none and as many as there were otherwise; and inside the
    toasts, those that the markup of the messages, set unescaped, parses
    to. The id stays on one element exactly when no message brings it
    in. *)
Theorem X8_one_toast_container
        (containers_in : string -> nat)
        (calls : list (string * option string)) (doc : Toasts.Document) :
  calls <> [] ->
  Toasts.containers_in_toasts containers_in doc = 0 ->
  Toasts.containers (Toasts.showToasts calls doc)
    = Nat.max 1 (Toasts.containers doc) /\
  Toasts.all_containers containers_in (Toasts.showToasts calls doc)
    = Nat.max 1 (Toasts.containers doc)
      + list_sum (map (fun c => containers_in (Toasts.toast_markup (fst c)))
                      calls).
Proof.
  intros Hne Hclean.
  assert (Hout : forall calls doc,
             calls <> [] ->
             Toasts.containers (Toasts.showToasts calls doc)
             = Nat.max 1 (Toasts.containers doc)).
  { clear. induction calls as [|[message type] calls IH]; intros doc Hne;
      [contradiction|].
    change (Toasts.showToasts ((message, type) :: calls) doc)
      with (Toasts.showToasts calls (Toasts.showToast message type doc)).
    destruct calls as [|c calls].
    - apply containers_showToast.
    - rewrite IH by discriminate. rewrite containers_showToast. lia. }
  assert (Hin : forall calls doc,
             Toasts.containers_in_toasts containers_in
               (Toasts.showToasts calls doc)
             = Toasts.containers_in_toasts containers_in doc
               + list_sum
                   (map (fun c => containers_in (Toasts.toast_markup (fst c)))
                        calls)).
  { clear. induction calls as [|[message type] calls IH]; intros doc;
      [simpl; lia|].
    change (Toasts.showToasts ((message, type) :: calls) doc)
      with (Toasts.showToasts calls (Toasts.showToast message type doc)).
    rewrite IH, containers_in_toasts_showToast. simpl. lia. }
  split; [now apply Hout|].
  unfold Toasts.all_containers. rewrite (Hout calls doc Hne), Hin, Hclean.
  lia.
Qed.

Lemma X8_one_toast_container_witness :
  let calls := [("<b id='toast-container'>Saved</b>", Some "success");
                ("Hello", None)] in
  let doc := Toasts.mkDocument [] 0 in
  Toasts.containers (Toasts.showToasts calls doc)
    = Nat.max 1 (Toasts.containers doc) /\
  Toasts.all_containers sample_containers_in (Toasts.showToasts calls doc)
    = Nat.max 1 (Toasts.containers doc)
      + list_sum (map (fun c => sample_containers_in
                                  (Toasts.toast_markup (fst c)))
                      calls).
Proof.
  apply (X8_one_toast_container
           sample_containers_in
           [("<b id='toast-container'>Saved</b>", Some "success");
            ("Hello", None)]
           (Toasts.mkDocument [] 0)).
  - discriminate.
  - reflexivity.
Defined.



(* ------------------------------------------------------------------------- *)
(** ** [debounce]: facts                                                     *)
(* ------------------------------------------------------------------------- *)

Section DebounceFacts.

Context {Args State : Type}.
Variable func : Args -> State -> State.
Variable wait : nat.

(** A call in a tidy world leaves exactly its own timer pending. *)
Lemma executedFunction_tidy a (w : Debounce.World Args State) :
  Debounce.tidy w ->
  Debounce.executedFunction wait a w
  = Debounce.mkWorld (Debounce.clock w) (S (Debounce.next_handle w))
      [Debounce.mkTimer (Debounce.next_handle w) (Debounce.clock w + wait) a]
      (Some (Debounce.next_handle w)) (Debounce.page w).
Proof.
  destruct w as [c n p t s]; simpl.
  intros [Hp | (x & Hp & Ht)]; simpl in *; subst.
  - unfold Debounce.executedFunction, Debounce.clearTimeout.
    destruct t; reflexivity.
  - unfold Debounce.executedFunction, Debounce.clearTimeout; simpl.
    now rewrite Nat.eqb_refl.
Qed.

Lemma advance_idle dt (w : Debounce.World Args State) :
  Debounce.pending w = [] ->
  Debounce.advance func dt w
  = Debounce.mkWorld (Debounce.clock w + dt) (Debounce.next_handle w) []
                     (Debounce.timeout w) (Debounce.page w).
Proof.
  intros Hp. unfold Debounce.advance. now rewrite Hp.
Qed.

(** Before it is due, a timer stays pending and [func] is not called. *)
Lemma advance_early dt (w : Debounce.World Args State) t :
  Debounce.pending w = [t] ->
  Debounce.clock w + dt < Debounce.due t ->
  Debounce.advance func dt w
  = Debounce.mkWorld (Debounce.clock w + dt) (Debounce.next_handle w) [t]
                     (Debounce.timeout w) (Debounce.page w).
Proof.
  intros Hp Hlt. unfold Debounce.advance. rewrite Hp; simpl.
  unfold Debounce.fire; simpl.
  destruct (Nat.leb_spec (Debounce.due t) (Debounce.clock w + dt));
    [lia | reflexivity].
Qed.

(** Once it is due, the timer runs: [func] is called with the arguments of
    the call that set it, and nothing is left pending. *)
Lemma advance_fires dt (w : Debounce.World Args State) t :
  Debounce.pending w = [t] ->
  Debounce.timeout w = Some (Debounce.handle t) ->
  Debounce.due t <= Debounce.clock w + dt ->
  Debounce.advance func dt w
  = Debounce.mkWorld (Debounce.clock w + dt) (Debounce.next_handle w) []
      (Debounce.timeout w) (func (Debounce.args t) (Debounce.page w)).
Proof.
  intros Hp Ht Hle. unfold Debounce.advance. rewrite Hp; simpl.
  unfold Debounce.fire; simpl.
  destruct (Nat.leb_spec (Debounce.due t) (Debounce.clock w + dt)); [|lia].
  rewrite Nat.eqb_refl; simpl.
  unfold Debounce.later, Debounce.clearTimeout; simpl. now rewrite Ht.
Qed.

Lemma tidy_advance dt (w : Debounce.World Args State) :
  Debounce.tidy w -> Debounce.tidy (Debounce.advance func dt w).
Proof.
  intros [Hp | (t & Hp & Ht)].
  - rewrite (advance_idle dt w Hp). now left.
  - destruct (Nat.le_gt_cases (Debounce.due t) (Debounce.clock w + dt)).
    + rewrite (advance_fires dt w t Hp Ht) by assumption. now left.
    + rewrite (advance_early dt w t Hp) by assumption.
      right. exists t. now split.
Qed.

Lemma tidy_reachable (w : Debounce.World Args State) :
  Debounce.reachable func wait w -> Debounce.tidy w.
Proof.
  induction 1 as [now first s | a w _ IH | dt w _ IH | f w _ IH].
  - now left.
  - rewrite (executedFunction_tidy a w IH). right. eexists. now split.
  - now apply tidy_advance.
  - destruct IH as [Hp | (t & Hp & Ht)]; [now left|].
    right. exists t. now split.
Qed.

(** During a burst whose pauses are all shorter than [wait], [func] is not
    called, and the world stays tidy. *)
Lemma burst_quiet calls (w : Debounce.World Args State) :
  Debounce.tidy w ->
  Forall (fun c => snd c < wait) calls ->
  Debounce.tidy (Debounce.burst func wait calls w) /\
  Debounce.page (Debounce.burst func wait calls w) = Debounce.page w.
Proof.
  intros Htidy Hgaps. revert w Htidy.
  induction Hgaps as [|[a gap] calls Hgap _ IH]; intros w Htidy;
    [now split|].
  change (Debounce.burst func wait ((a, gap) :: calls) w)
    with (Debounce.burst func wait calls
            (Debounce.advance func gap (Debounce.executedFunction wait a w))).
  simpl in Hgap.
  pose proof (executedFunction_tidy a w Htidy) as Hcall.
  assert (Hstep : Debounce.advance func gap (Debounce.executedFunction wait a w)
                  = Debounce.mkWorld (Debounce.clock w + gap)
                      (S (Debounce.next_handle w))
                      [Debounce.mkTimer (Debounce.next_handle w)
                                        (Debounce.clock w + wait) a]
                      (Some (Debounce.next_handle w)) (Debounce.page w)).
  { rewrite Hcall.
    rewrite (advance_early gap _
               (Debounce.mkTimer (Debounce.next_handle w)
                                 (Debounce.clock w + wait) a));
      simpl; [reflexivity | reflexivity | lia]. }
  rewrite Hstep.
  destruct (IH (Debounce.mkWorld (Debounce.clock w + gap)
                  (S (Debounce.next_handle w))
                  [Debounce.mkTimer (Debounce.next_handle w)
                                    (Debounce.clock w + wait) a]
                  (Some (Debounce.next_handle w)) (Debounce.page w)))
    as [H1 H2].
  - right. eexists. now split.
  - split; [exact H1 | exact H2].
Qed.

(** X10. However calls, pauses and other changes of the page follow one
    another, at most one timer of the debounced function is pending, and it
    is the one whose handle [timeout] holds: each call cancels the timer of
    the call before. *)
Theorem X10_debounce_keeps_one_timer (w : Debounce.World Args State) :
  Debounce.reachable func wait w ->
  List.length (Debounce.pending w) <= 1 /\
  (forall t, In t (Debounce.pending w) ->
             Debounce.timeout w = Some (Debounce.handle t)).
Proof.
  intros Hr. destruct (tidy_reachable w Hr) as [Hp | (t & Hp & Ht)];
    rewrite Hp; simpl.
  - split; [lia | tauto].
  - split; [lia|]. now intros u [<- | []].
Qed.

(** X11. A burst of calls, each less than [wait] after the one before, calls
    [func] not at all while it lasts; once [wait] has passed after the last
    call, [func] has been called exactly once, with the arguments of that
    last call, and no timer is left. *)
Theorem X11_debounce_delivers_last_call
        (calls : list (Args * nat)) (z : Args) (dt : nat) (w : Debounce.World Args State) :
  Debounce.reachable func wait w ->
  Forall (fun c => snd c < wait) calls ->
  wait <= dt ->
  let during := Debounce.burst func wait calls w in
  let after := Debounce.advance func dt (Debounce.executedFunction wait z during) in
  Debounce.page during = Debounce.page w /\
  Debounce.page (Debounce.executedFunction wait z during) = Debounce.page w /\
  Debounce.page after = func z (Debounce.page w) /\
  Debounce.pending after = [].
Proof.
  intros Hr Hgaps Hdt during after.
  destruct (burst_quiet calls w (tidy_reachable w Hr) Hgaps) as [Htidy Hpage].
  fold during in Htidy, Hpage.
  pose proof (executedFunction_tidy z during Htidy) as Hcall.
  assert (Hafter : after
                   = Debounce.mkWorld (Debounce.clock during + dt)
                       (S (Debounce.next_handle during)) []
                       (Some (Debounce.next_handle during))
                       (func z (Debounce.page during))).
  { unfold after. rewrite Hcall.
    rewrite (advance_fires dt _
               (Debounce.mkTimer (Debounce.next_handle during)
                                 (Debounce.clock during + wait) z));
      simpl; [reflexivity | reflexivity | reflexivity | lia]. }
  repeat split.
  - exact Hpage.
  - now rewrite Hcall.
  - now rewrite Hafter, <- Hpage.
  - now rewrite Hafter.
Qed.

End DebounceFacts.

Lemma X10_debounce_keeps_one_timer_witness :
  let w :=
    Debounce.executedFunction 300 "c"
      (Debounce.advance log_func 100
         (Debounce.executedFunction 300 "b"
            (Debounce.executedFunction 300 "a" log_world))) in
  List.length (Debounce.pending w) <= 1 /\
  (forall t, In t (Debounce.pending w) ->
             Debounce.timeout w = Some (Debounce.handle t)).
Proof.
  apply (X10_debounce_keeps_one_timer log_func 300).
  apply Debounce.reachable_call, Debounce.reachable_advance,
        Debounce.reachable_call, Debounce.reachable_call,
        Debounce.reachable_fresh.
Defined.

Lemma X11_debounce_delivers_last_call_witness :
  let during := Debounce.burst log_func 300 [("a", 100); ("ab", 250)] log_world in
  let after :=
    Debounce.advance log_func 300 (Debounce.executedFunction 300 "abc" during) in
  Debounce.page during = Debounce.page log_world /\
  Debounce.page (Debounce.executedFunction 300 "abc" during)
    = Debounce.page log_world /\
  Debounce.page after = log_func "abc" (Debounce.page log_world) /\
  Debounce.pending after = [].
Proof.
  apply (X11_debounce_delivers_last_call
           log_func 300 [("a", 100); ("ab", 250)] "abc" 300 log_world).
  - apply Debounce.reachable_fresh.
  - repeat constructor; simpl; lia.
  - lia.
Defined.

(** While the user types with pauses under half a second nothing is
    submitted, and the world of the search box stays tidy. *)
Lemma typing_quiet keys (w : SearchWorld) :
  Debounce.tidy w ->
  Forall (fun k => snd k < 500) keys ->
  Debounce.tidy (typing keys w) /\
  in_form (Debounce.page (typing keys w)) = in_form (Debounce.page w) /\
  submitted (Debounce.page (typing keys w)) = submitted (Debounce.page w) /\
  uncaught (Debounce.page (typing keys w)) = uncaught (Debounce.page w).
Proof.
  intros Htidy Hgaps. revert w Htidy.
  induction Hgaps as [|[v gap] keys Hgap _ IH]; intros w Htidy;
    [now repeat split|].
  change (typing ((v, gap) :: keys) w)
    with (typing keys (pause gap (input v w))).
  simpl in Hgap.
  set (edited := Debounce.touch
                   (fun pg => mkSearchPage v (in_form pg) (submitted pg)
                                           (uncaught pg)) w).
  assert (Hedited : Debounce.tidy edited).
  { destruct Htidy as [Hp | (t & Hp & Ht)]; [now left|].
    right. exists t. now split. }
  assert (Hstep : pause gap (input v w)
                  = Debounce.mkWorld (Debounce.clock w + gap)
                      (S (Debounce.next_handle w))
                      [Debounce.mkTimer (Debounce.next_handle w)
                                        (Debounce.clock w + 500) tt]
                      (Some (Debounce.next_handle w))
                      (Debounce.page edited)).
  { unfold pause, input. fold edited.
    rewrite (executedFunction_tidy 500 tt edited Hedited).
    rewrite (advance_early search_callback gap _
               (Debounce.mkTimer (Debounce.next_handle edited)
                                 (Debounce.clock edited + 500) tt));
      simpl; [reflexivity | reflexivity | lia]. }
  rewrite Hstep.
  destruct (IH (Debounce.mkWorld (Debounce.clock w + gap)
                  (S (Debounce.next_handle w))
                  [Debounce.mkTimer (Debounce.next_handle w)
                                    (Debounce.clock w + 500) tt]
                  (Some (Debounce.next_handle w))
                  (Debounce.page edited)))
    as (H1 & H2 & H3 & H4).
  - right. eexists. now split.
  - repeat split; assumption.
Qed.

(** X12. The user types in the search box, each edit less than 500 ms after
    the one before, and then stops for 500 ms or more. The form is
    submitted at most once: with the term left in the box when that term
    is empty or has three UTF-16 code units or more, and not at all when it
    has one or two. *)
Theorem X12_search_submits_settled_term
        (keys : list (CodeUnits * nat)) (z : CodeUnits) (dt : nat)
        (w : SearchWorld) :
  Debounce.reachable search_callback 500 w ->
  in_form (Debounce.page w) = true ->
  Forall (fun k => snd k < 500) keys ->
  500 <= dt ->
  let after := pause dt (input z (typing keys w)) in
  submitted (Debounce.page after)
  = submitted (Debounce.page w)
      ++ (if (3 <=? List.length z)%nat || (List.length z =? 0)%nat
          then [z] else []) /\
  search_value (Debounce.page after) = z /\
  Debounce.pending after = [].
Proof.
  intros Hr Hform Hgaps Hdt after.
  destruct (typing_quiet keys w (tidy_reachable _ _ w Hr) Hgaps)
    as (Htidy & Hform' & Hsub & _).
  set (typed := typing keys w) in *.
  set (edited := Debounce.touch
                   (fun pg => mkSearchPage z (in_form pg) (submitted pg)
                                           (uncaught pg)) typed).
  assert (Hedited : Debounce.tidy edited).
  { destruct Htidy as [Hp | (t & Hp & Ht)]; [now left|].
    right. exists t. now split. }
  assert (Hafter : after
                   = Debounce.mkWorld (Debounce.clock typed + dt)
                       (S (Debounce.next_handle typed)) []
                       (Some (Debounce.next_handle typed))
                       (search_callback tt (Debounce.page edited))).
  { unfold after, pause, input. fold typed. fold edited.
    rewrite (executedFunction_tidy 500 tt edited Hedited).
    rewrite (advance_fires search_callback dt _
               (Debounce.mkTimer (Debounce.next_handle edited)
                                 (Debounce.clock edited + 500) tt));
      simpl; [reflexivity | reflexivity | reflexivity | lia]. }
  rewrite Hafter.
  change (Debounce.page edited)
    with (mkSearchPage z (in_form (Debounce.page typed))
                       (submitted (Debounce.page typed))
                       (uncaught (Debounce.page typed))).
  unfold search_callback.
  cbn [search_value in_form submitted uncaught Debounce.page Debounce.pending].
  rewrite Hform', Hform, Hsub.
  destruct ((3 <=? List.length z)%nat || (List.length z =? 0)%nat);
    cbn [search_value submitted]; repeat split; now rewrite ?app_nil_r.
Qed.

Lemma X12_search_submits_settled_term_witness :
  let w : SearchWorld := Debounce.fresh 0 1 (mkSearchPage [] true [] 0) in
  let after :=
    pause 500 (input [26085%N; 26412%N; 35486%N]
                 (typing [([26085%N], 120); ([26085%N; 26412%N], 80)] w)) in
  submitted (Debounce.page after)
  = submitted (Debounce.page w)
      ++ (if (3 <=? List.length [26085%N; 26412%N; 35486%N])%nat
             || (List.length [26085%N; 26412%N; 35486%N] =? 0)%nat
          then [[26085%N; 26412%N; 35486%N]] else []) /\
  search_value (Debounce.page after) = [26085%N; 26412%N; 35486%N] /\
  Debounce.pending after = [].
Proof.
  apply (X12_search_submits_settled_term
           [([26085%N], 120); ([26085%N; 26412%N], 80)] [26085%N; 26412%N; 35486%N] 500
           (Debounce.fresh 0 1 (mkSearchPage [] true [] 0))).
  - apply Debounce.reachable_fresh.
  - reflexivity.
  - repeat constructor; simpl; lia.
  - lia.
Defined.

(* ------------------------------------------------------------------------- *)
(** ** More about the map wrapper ([mapbox.js])                              *)
(* ------------------------------------------------------------------------- *)

Section MapWrapperMore.

Context {Num : Type}.
Variable Kolkata : Num * Num.
Variable zoom_10 : Num.
Variable Map_throws : ExploreEaseMap.MapConfig Num -> bool.
Variable sdk_loaded : bool.
Variable setup_throws :
  ExploreEaseMap.MapConfig Num -> option ExploreEaseMap.SetupStep.
Variable falsy : Num -> bool.
Variable zoom_12 : Num.

(** A call touches the handle and the markers only. *)
Lemma addMarker_frame at_ properties (this : ExploreEaseMap.Instance Num) :
  let this' := snd (ExploreEaseMap.addMarker at_ properties this) in
  ExploreEaseMap.containerId Num this' = ExploreEaseMap.containerId Num this /\
  ExploreEaseMap.options Num this' = ExploreEaseMap.options Num this /\
  ExploreEaseMap.container_html this' = ExploreEaseMap.container_html this.
Proof.
  unfold ExploreEaseMap.addMarker.
  destruct (ExploreEaseMap.this_map this); simpl; repeat split.
Qed.

Lemma addMarkers_cons at_ properties calls (this : ExploreEaseMap.Instance Num) :
  ExploreEaseMap.addMarkers ((at_, properties) :: calls) this
  = (fst (ExploreEaseMap.addMarker at_ properties this)
       :: fst (ExploreEaseMap.addMarkers calls
                 (snd (ExploreEaseMap.addMarker at_ properties this))),
     snd (ExploreEaseMap.addMarkers calls
            (snd (ExploreEaseMap.addMarker at_ properties this)))).
Proof.
  simpl.
  destruct (ExploreEaseMap.addMarker at_ properties this) as [r this'].
  simpl. destruct (ExploreEaseMap.addMarkers calls this'). reflexivity.
Qed.

(** X13. On an object whose handle shows exactly the markers of its
    [markers] list, any number of [addMarker] calls keeps it so: every call
    returns the marker it made, placed where it was asked, and that marker
    is appended both to [this.markers] and to the map, in call order. *)
Theorem X13_markers_match_the_map
        (calls : list (ExploreEaseMap.LngLat Num * ExploreEaseMap.Properties))
        (this : ExploreEaseMap.Instance Num)
        (m : ExploreEaseMap.MapboxMap Num) :
  ExploreEaseMap.this_map this = Some m ->
  ExploreEaseMap.shown m = ExploreEaseMap.this_markers this ->
  exists added m',
    fst (ExploreEaseMap.addMarkers calls this) = List.map Some added /\
    List.map ExploreEaseMap.lngLat added = List.map fst calls /\
    ExploreEaseMap.this_markers (snd (ExploreEaseMap.addMarkers calls this))
      = ExploreEaseMap.this_markers this ++ added /\
    ExploreEaseMap.this_map (snd (ExploreEaseMap.addMarkers calls this))
      = Some m' /\
    ExploreEaseMap.shown m'
      = ExploreEaseMap.this_markers (snd (ExploreEaseMap.addMarkers calls this)).
Proof.
  revert this m. induction calls as [|[at_ properties] calls IH];
    intros this m Hmap Hsync.
  - exists [], m. simpl. rewrite app_nil_r. repeat split; assumption.
  - rewrite addMarkers_cons; simpl.
    set (this' := snd (ExploreEaseMap.addMarker at_ properties this)).
    assert (Hone : exists marker m1,
               ExploreEaseMap.addMarker at_ properties this
               = (Some marker, this') /\
               ExploreEaseMap.lngLat marker = at_ /\
               ExploreEaseMap.this_map this' = Some m1 /\
               ExploreEaseMap.this_markers this'
               = ExploreEaseMap.this_markers this ++ [marker] /\
               ExploreEaseMap.shown m1 = ExploreEaseMap.this_markers this').
    { unfold this', ExploreEaseMap.addMarker. rewrite Hmap; simpl.
      eexists. eexists. repeat split. now rewrite Hsync. }
    destruct Hone as (marker & m1 & Hcall & Hat & Hmap1 & Hmarkers1 & Hsync1).
    destruct (IH this' m1 Hmap1 Hsync1)
      as (added & m' & Hres & Hpos & Hmarkers & Hmap' & Hsync').
    exists (marker :: added), m'. rewrite Hcall; simpl.
    rewrite Hres, Hpos, Hat, Hmarkers, Hmarkers1, <- app_assoc.
    repeat split; try assumption.
    now rewrite Hsync', Hmarkers, Hmarkers1, <- app_assoc.
Qed.

(** A constructor whose SDK calls all return leaves such an object. *)
Lemma constructor_started id opts html :
  (forall cfg, Map_throws cfg = false) ->
  (forall cfg, setup_throws cfg = None) ->
  exists this m,
    ExploreEaseMap.constructor Kolkata zoom_10 Map_throws true setup_throws
                               id opts html = Some this /\
    ExploreEaseMap.this_map this = Some m /\
    ExploreEaseMap.shown m = [] /\
    ExploreEaseMap.this_markers this = [].
Proof.
  intros Hok Hsetup.
  unfold ExploreEaseMap.constructor, ExploreEaseMap.init,
         ExploreEaseMap.init_try.
  rewrite Hok, Hsetup; simpl. eexists. eexists. repeat split.
Qed.

(** X14. [destroy] forgets every marker: destroying an object after any
    number of [addMarker] calls leaves what destroying it at once would
    have left, and the destroyed object takes no marker. *)
Theorem X14_destroy_forgets_markers
        (calls : list (ExploreEaseMap.LngLat Num * ExploreEaseMap.Properties))
        (this : ExploreEaseMap.Instance Num) :
  ExploreEaseMap.destroy (snd (ExploreEaseMap.addMarkers calls this))
    = ExploreEaseMap.destroy this /\
  fst (ExploreEaseMap.addMarkers calls (ExploreEaseMap.destroy this))
    = List.map (fun _ => None) calls.
Proof.
  split.
  - revert this. induction calls as [|[at_ properties] calls IH]; intros this;
      [reflexivity|].
    rewrite addMarkers_cons; simpl. rewrite IH.
    destruct (addMarker_frame at_ properties this) as (H1 & H2 & H3).
    unfold ExploreEaseMap.destroy. now rewrite H1, H2, H3.
  - induction calls as [|[at_ properties] calls IH]; [reflexivity|].
    rewrite addMarkers_cons; simpl. now rewrite IH.
Qed.

(** X15. With a handle, [addPackageMarker] places a marker at
    [[longitude, latitude]] of the package and, whatever the fields of the
    package are, empty ones included, gives it the popup of lines 84-92:
    the markup is never empty, so the popup is never left out. *)
Theorem X15_package_marker_has_popup
        (packageData : ExploreEaseMap.PackageData Num)
        (this : ExploreEaseMap.Instance Num)
        (m : ExploreEaseMap.MapboxMap Num) :
  ExploreEaseMap.this_map this = Some m ->
  exists marker,
    fst (ExploreEaseMap.addPackageMarker packageData this) = Some marker /\
    ExploreEaseMap.lngLat marker
      = (ExploreEaseMap.pkg_longitude Num packageData,
         ExploreEaseMap.pkg_latitude Num packageData) /\
    ExploreEaseMap.popup marker
      = Some (ExploreEaseMap.mkPopup 25
                (ExploreEaseMap.popupContent Num packageData)) /\
    ExploreEaseMap.this_markers
      (snd (ExploreEaseMap.addPackageMarker packageData this))
      = ExploreEaseMap.this_markers this ++ [marker].
Proof.
  intros Hmap.
  unfold ExploreEaseMap.addPackageMarker, ExploreEaseMap.addMarker.
  rewrite Hmap. eexists. repeat split.
Qed.

(** X16. For coordinates that are both truthy, [initPackageMap] goes one of
    these ways. Without the SDK, line 18 throws out of the constructor and
    the [catch] of lines 148-150 takes it: no object is made, no marker is
    set and no fallback is shown. With the SDK, one object is made on the
    container [map], centred on [[longitude, latitude]] at zoom 12. When
    [new mapboxgl.Map] throws, the object has no handle and no marker, and
    the container, if there is one, shows the fallback. When it returns,
    the object ends with exactly one marker, at that centre, whose popup
    names the package; and if a later call of the [try] block throws, the
    map keeps the controls and listeners it had got and the container
    shows the fallback as well. *)
Theorem X16_initPackageMap_one_marker_or_fallback
        (latitude longitude : Num) (packageName : string)
        (html : option string) :
  falsy latitude = false ->
  falsy longitude = false ->
  let cfg :=
    ExploreEaseMap.mkMapConfig "map" "mapbox://styles/mapbox/outdoors-v12"
                               (longitude, latitude) zoom_12 true in
  let result :=
    ExploreEaseMap.initPackageMap Kolkata zoom_10 Map_throws sdk_loaded
      setup_throws falsy zoom_12 latitude longitude packageName html in
  if sdk_loaded then
    exists this,
      result = ExploreEaseMap.Made this /\
      if Map_throws cfg then
        ExploreEaseMap.this_map this = None /\
        ExploreEaseMap.this_markers this = [] /\
        ExploreEaseMap.container_html this
          = option_map (fun _ => ExploreEaseMap.fallback_markup) html
      else
        exists marker,
          ExploreEaseMap.this_markers this = [marker] /\
          ExploreEaseMap.lngLat marker = (longitude, latitude) /\
          ExploreEaseMap.popup marker
            = Some (ExploreEaseMap.mkPopup 25
                      ("<h6>" ++ packageName
                         ++ "</h6><p>Your destination awaits!</p>")%string) /\
          ExploreEaseMap.this_map this
            = Some (ExploreEaseMap.mkMapboxMap cfg
                      (ExploreEaseMap.controls_before (setup_throws cfg))
                      (ExploreEaseMap.listeners_before (setup_throws cfg))
                      [marker]) /\
          ExploreEaseMap.container_html this
            = match setup_throws cfg with
              | None => html
              | Some _ =>
                  option_map (fun _ => ExploreEaseMap.fallback_markup) html
              end
  else result = ExploreEaseMap.Caught.
Proof.
  intros Hlat Hlng cfg result. unfold result.
  unfold ExploreEaseMap.initPackageMap. rewrite Hlat, Hlng; simpl.
  unfold ExploreEaseMap.constructor, ExploreEaseMap.init.
  destruct sdk_loaded; [|reflexivity].
  eexists. split; [reflexivity|].
  unfold ExploreEaseMap.init_try; simpl.
  fold cfg. destruct (Map_throws cfg); simpl.
  - repeat split.
  - destruct (setup_throws cfg); simpl; eexists; repeat split.
Qed.

End MapWrapperMore.

(* ------------------------------------------------------------------------- *)
(** ** Lazy loading of images: facts                                         *)
(* ------------------------------------------------------------------------- *)

Lemma load_load img : LazyImages.load (LazyImages.load img) = LazyImages.load img.
Proof.
  unfold LazyImages.load; simpl. f_equal.
  induction (LazyImages.img_classList img) as [|c rest IH]; simpl;
    [reflexivity|].
  destruct (String.eqb c "lazy") eqn:Hc; simpl; [exact IH|].
  now rewrite Hc, IH.
Qed.

Lemma nth_error_update_at i j f imgs :
  nth_error (LazyImages.update_at i f imgs) j
  = if Nat.eqb i j then option_map f (nth_error imgs j) else nth_error imgs j.
Proof.
  revert i j. induction imgs as [|img rest IH]; intros i j.
  - destruct i, j; simpl; try reflexivity.
    now destruct (Nat.eqb i j).
  - destruct i, j; simpl; try reflexivity. apply IH.
Qed.

Lemma querySelectorAll_data_src_spec from imgs i :
  In i (LazyImages.querySelectorAll_data_src from imgs) <->
  exists img, from <= i /\ nth_error imgs (i - from) = Some img /\
              LazyImages.has_data_src img = true.
Proof.
  revert from. induction imgs as [|x rest IH]; intros from; simpl.
  - split; [tauto|]. intros (img & _ & H & _). now destruct (i - from).
  - rewrite in_app_iff, IH. split.
    + intros [Hhere | (img & Hle & Hnth & Hd)].
      * destruct (LazyImages.has_data_src x) eqn:Hx; [|contradiction].
        destruct Hhere as [<- | []]. exists x.
        rewrite Nat.sub_diag. now repeat split.
      * exists img. split; [lia|]. split; [|assumption].
        replace (i - from) with (S (i - S from)) by lia. exact Hnth.
    + intros (img & Hle & Hnth & Hd).
      destruct (Nat.eq_dec i from) as [-> | Hne].
      * left. rewrite Nat.sub_diag in Hnth. injection Hnth as ->.
        rewrite Hd. now left.
      * right. exists img. split; [lia|]. split; [|assumption].
        replace (i - from) with (S (i - S from)) in Hnth by lia. exact Hnth.
Qed.

Lemma watched_In i pg :
  LazyImages.watched i pg = true <-> In i (LazyImages.observed pg).
Proof.
  unfold LazyImages.watched. rewrite existsb_exists. split.
  - intros (x & Hx & Heq). apply Nat.eqb_eq in Heq. now subst.
  - intros H. exists i. split; [assumption | apply Nat.eqb_refl].
Qed.

Lemma lazy_inv_init imgs : lazy_inv imgs (LazyImages.lazyLoadImages imgs).
Proof.
  assert (Hw : forall i, LazyImages.watched i (LazyImages.lazyLoadImages imgs) = true
                         <-> exists img0, nth_error imgs i = Some img0 /\
                                          LazyImages.has_data_src img0 = true).
  { intros i. rewrite watched_In; simpl.
    rewrite querySelectorAll_data_src_spec, Nat.sub_0_r.
    split; [intros (img & _ & H1 & H2) | intros (img & H1 & H2)];
      exists img; repeat split; try assumption; lia. }
  split.
  - intros i; simpl. destruct (nth_error imgs i) as [img0|] eqn:Hnth;
      [|reflexivity].
    simpl. unfold expected.
    destruct (LazyImages.has_data_src img0) eqn:Hd; [|reflexivity].
    assert (Hyes : LazyImages.watched i (LazyImages.lazyLoadImages imgs) = true)
      by (apply Hw; now exists img0).
    now rewrite Hyes.
  - intros i Hi. now apply Hw.
Qed.

Lemma watched_on_entry i e pg :
  LazyImages.watched i (LazyImages.on_entry e pg)
  = LazyImages.watched i pg
    && negb (LazyImages.isIntersecting e && Nat.eqb i (LazyImages.target e)).
Proof.
  unfold LazyImages.on_entry.
  destruct (LazyImages.isIntersecting e); simpl; [|now rewrite andb_true_r].
  unfold LazyImages.watched; simpl.
  induction (LazyImages.observed pg) as [|t rest IH]; simpl; [reflexivity|].
  destruct (Nat.eqb_spec t (LazyImages.target e)) as [-> | Hne]; simpl.
  - rewrite IH. destruct (Nat.eqb_spec i (LazyImages.target e)); simpl;
      [now rewrite andb_false_r | reflexivity].
  - rewrite IH. destruct (Nat.eqb_spec i t) as [-> | Hit]; simpl;
      [|reflexivity].
    destruct (Nat.eqb_spec t (LazyImages.target e)); [contradiction|].
    reflexivity.
Qed.

Lemma lazy_inv_on_entry imgs e pg :
  lazy_inv imgs pg ->
  (exists img0, nth_error imgs (LazyImages.target e) = Some img0 /\
                LazyImages.has_data_src img0 = true) ->
  lazy_inv imgs (LazyImages.on_entry e pg).
Proof.
  intros [Himg Hobs] (img0 & Hnth & Hd). split.
  - intros i. rewrite watched_on_entry.
    unfold LazyImages.on_entry.
    destruct (LazyImages.isIntersecting e) eqn:Hint; simpl;
      [|rewrite andb_true_r; apply Himg].
    rewrite nth_error_update_at, Himg, Nat.eqb_sym.
    destruct (Nat.eqb_spec i (LazyImages.target e)) as [-> | Hne]; simpl;
      [|now rewrite andb_true_r].
    rewrite Hnth; simpl. rewrite andb_false_r. unfold expected.
    rewrite Hd; simpl.
    destruct (LazyImages.watched (LazyImages.target e) pg); simpl;
      [reflexivity | now rewrite load_load].
  - intros i Hi. rewrite watched_on_entry in Hi.
    apply andb_true_iff in Hi as [Hi _]. now apply Hobs.
Qed.

Lemma lazy_inv_callback imgs entries pg :
  lazy_inv imgs pg ->
  Forall (fun e => exists img0,
              nth_error imgs (LazyImages.target e) = Some img0 /\
              LazyImages.has_data_src img0 = true) entries ->
  lazy_inv imgs (LazyImages.callback entries pg).
Proof.
  intros Hinv Hall. revert pg Hinv.
  induction Hall as [|e entries He _ IH]; intros pg Hinv; [exact Hinv|].
  apply IH. now apply lazy_inv_on_entry.
Qed.

Lemma lazy_inv_deliveries imgs batches pg :
  lazy_inv imgs pg -> lazy_inv imgs (LazyImages.deliveries batches pg).
Proof.
  revert pg. induction batches as [|batch batches IH]; intros pg Hinv;
    [exact Hinv|].
  apply IH. unfold LazyImages.deliver.
  apply lazy_inv_callback; [exact Hinv|].
  apply Forall_forall. intros e He. apply filter_In in He as [_ Hw].
  destruct Hinv as [_ Hobs]. now apply Hobs.
Qed.

(** X17. After [lazyLoadImages], whatever batches of entries the observer
    is called back with, every image that has a [data-src] is in one of two
    states: still observed and exactly as the document had it, or no longer
    observed, with [src] set to its [data-src] and the class [lazy] taken
    off. An image without [data-src] is never observed and never
    changed. *)
Theorem X17_lazy_image_is_watched_or_loaded
        (imgs : list LazyImages.Img) (batches : list (list LazyImages.Entry))
        (i : nat) (img0 : LazyImages.Img) :
  nth_error imgs i = Some img0 ->
  let pg := LazyImages.deliveries batches (LazyImages.lazyLoadImages imgs) in
  nth_error (LazyImages.images pg) i
  = Some (match LazyImages.img_data_src img0 with
          | None => img0
          | Some s =>
              if LazyImages.watched i pg then img0
              else LazyImages.mkImg
                     s (Some s)
                     (filter (fun c => negb (String.eqb c "lazy"))
                             (LazyImages.img_classList img0))
          end) /\
  (LazyImages.img_data_src img0 = None -> LazyImages.watched i pg = false).
Proof.
  intros Hnth pg.
  destruct (lazy_inv_deliveries imgs batches _ (lazy_inv_init imgs))
    as [Himg Hobs].
  fold pg in Himg, Hobs. split.
  - rewrite Himg, Hnth; simpl. unfold expected, LazyImages.has_data_src.
    unfold LazyImages.load.
    destruct (LazyImages.img_data_src img0) as [s|] eqn:Hd; simpl;
      [|reflexivity].
    destruct (LazyImages.watched i pg); reflexivity.
  - intros Hnone. destruct (LazyImages.watched i pg) eqn:Hw; [|reflexivity].
    destruct (Hobs i Hw) as (img1 & Hnth1 & Hd1).
    rewrite Hnth in Hnth1. injection Hnth1 as <-.
    unfold LazyImages.has_data_src in Hd1. now rewrite Hnone in Hd1.
Qed.

Lemma X17_lazy_image_is_watched_or_loaded_witness :
  let pg :=
    LazyImages.deliveries
      [[LazyImages.mkEntry 0 false; LazyImages.mkEntry 2 false];
       [LazyImages.mkEntry 0 true]]
      (LazyImages.lazyLoadImages listing_images) in
  nth_error (LazyImages.images pg) 0
  = Some (match LazyImages.img_data_src
                  (LazyImages.mkImg "placeholder.png" (Some "goa.jpg")
                                    ["card-img"; "lazy"]) with
          | None => LazyImages.mkImg "placeholder.png" (Some "goa.jpg")
                                     ["card-img"; "lazy"]
          | Some s =>
              if LazyImages.watched 0 pg
              then LazyImages.mkImg "placeholder.png" (Some "goa.jpg")
                                    ["card-img"; "lazy"]
              else LazyImages.mkImg
                     s (Some s)
                     (filter (fun c => negb (String.eqb c "lazy"))
                             (LazyImages.img_classList
                                (LazyImages.mkImg "placeholder.png"
                                   (Some "goa.jpg") ["card-img"; "lazy"])))
          end) /\
  (LazyImages.img_data_src
     (LazyImages.mkImg "placeholder.png" (Some "goa.jpg") ["card-img"; "lazy"])
   = None -> LazyImages.watched 0 pg = false).
Proof.
  apply (X17_lazy_image_is_watched_or_loaded
           listing_images
           [[LazyImages.mkEntry 0 false; LazyImages.mkEntry 2 false];
            [LazyImages.mkEntry 0 true]]
           0
           (LazyImages.mkImg "placeholder.png" (Some "goa.jpg")
                             ["card-img"; "lazy"])).
  reflexivity.
Defined.

Lemma watched_callback i entries pg :
  LazyImages.watched i (LazyImages.callback entries pg)
  = LazyImages.watched i pg
    && negb (existsb (fun e => LazyImages.isIntersecting e
                               && Nat.eqb i (LazyImages.target e)) entries).
Proof.
  revert pg. induction entries as [|e entries IH]; intros pg; simpl;
    [now rewrite andb_true_r|].
  change (LazyImages.callback (e :: entries) pg)
    with (LazyImages.callback entries (LazyImages.on_entry e pg)).
  rewrite IH, watched_on_entry, negb_orb. now rewrite andb_assoc.
Qed.

Lemma watched_deliver i batch pg :
  LazyImages.watched i (LazyImages.deliver batch pg)
  = LazyImages.watched i pg
    && negb (existsb (fun e => LazyImages.isIntersecting e
                               && Nat.eqb i (LazyImages.target e)) batch).
Proof.
  unfold LazyImages.deliver. rewrite watched_callback.
  destruct (LazyImages.watched i pg) eqn:Hw; [simpl | reflexivity].
  f_equal. induction batch as [|e batch IH]; simpl; [reflexivity|].
  destruct (Nat.eqb_spec i (LazyImages.target e)) as [-> | Hne].
  - rewrite Hw; simpl. rewrite Nat.eqb_refl. now rewrite IH.
  - rewrite andb_false_r; simpl.
    destruct (LazyImages.watched (LazyImages.target e) pg); simpl;
      [|exact IH].
    destruct (Nat.eqb_spec i (LazyImages.target e)); [contradiction|].
    rewrite andb_false_r; simpl. exact IH.
Qed.

Lemma watched_deliveries i batches pg :
  LazyImages.watched i (LazyImages.deliveries batches pg)
  = LazyImages.watched i pg && negb (LazyImages.reported i batches).
Proof.
  revert pg. induction batches as [|batch batches IH]; intros pg; simpl;
    [now rewrite andb_true_r|].
  change (LazyImages.deliveries (batch :: batches) pg)
    with (LazyImages.deliveries batches (LazyImages.deliver batch pg)).
  rewrite IH, watched_deliver, negb_orb. now rewrite andb_assoc.
Qed.

(** X18. An image with a [data-src] stays observed until, for the first
    time, a batch reports it as intersecting; from then on it is observed
    no more. Entries that do not intersect, and entries for other images,
    change nothing for it. *)
Theorem X18_lazy_image_unobserved_once_seen
        (imgs : list LazyImages.Img) (batches : list (list LazyImages.Entry))
        (i : nat) (img0 : LazyImages.Img) :
  nth_error imgs i = Some img0 ->
  LazyImages.watched i
    (LazyImages.deliveries batches (LazyImages.lazyLoadImages imgs))
  = LazyImages.has_data_src img0 && negb (LazyImages.reported i batches).
Proof.
  intros Hnth. rewrite watched_deliveries. f_equal.
  destruct (LazyImages.has_data_src img0) eqn:Hd.
  - apply watched_In; simpl. apply querySelectorAll_data_src_spec.
    exists img0. rewrite Nat.sub_0_r. repeat split; [lia | assumption..].
  - destruct (LazyImages.watched i (LazyImages.lazyLoadImages imgs)) eqn:Hw;
      [|reflexivity].
    apply watched_In in Hw; simpl in Hw.
    apply querySelectorAll_data_src_spec in Hw as (img & _ & Himg & Hd').
    rewrite Nat.sub_0_r, Hnth in Himg. injection Himg as <-. congruence.
Qed.

Lemma X18_lazy_image_unobserved_once_seen_witness :
  LazyImages.watched 2
    (LazyImages.deliveries
       [[LazyImages.mkEntry 0 true; LazyImages.mkEntry 2 false];
        [LazyImages.mkEntry 1 true]]
       (LazyImages.lazyLoadImages listing_images))
  = LazyImages.has_data_src
      (LazyImages.mkImg "placeholder.png" (Some "leh.jpg") ["lazy"])
    && negb (LazyImages.reported 2
               [[LazyImages.mkEntry 0 true; LazyImages.mkEntry 2 false];
                [LazyImages.mkEntry 1 true]]).
Proof.
  apply (X18_lazy_image_unobserved_once_seen
           listing_images
           [[LazyImages.mkEntry 0 true; LazyImages.mkEntry 2 false];
            [LazyImages.mkEntry 1 true]]
           2
           (LazyImages.mkImg "placeholder.png" (Some "leh.jpg") ["lazy"])).
  reflexivity.
Defined.

Lemma X13_markers_match_the_map_witness :
  let calls :=
    [((77, 28), ExploreEaseMap.mkProperties (Some "<h6>Delhi</h6>"));
     ((73, 15), ExploreEaseMap.mkProperties None)] in
  exists added m',
    fst (ExploreEaseMap.addMarkers calls mapped) = List.map Some added /\
    List.map ExploreEaseMap.lngLat added = List.map fst calls /\
    ExploreEaseMap.this_markers (snd (ExploreEaseMap.addMarkers calls mapped))
      = ExploreEaseMap.this_markers mapped ++ added /\
    ExploreEaseMap.this_map (snd (ExploreEaseMap.addMarkers calls mapped))
      = Some m' /\
    ExploreEaseMap.shown m'
      = ExploreEaseMap.this_markers (snd (ExploreEaseMap.addMarkers calls mapped)).
Proof.
  apply (X13_markers_match_the_map
           [((77, 28), ExploreEaseMap.mkProperties (Some "<h6>Delhi</h6>"));
            ((73, 15), ExploreEaseMap.mkProperties None)]
           mapped mapped_handle);
    reflexivity.
Defined.

Lemma X15_package_marker_has_popup_witness :
  let nameless :=
    ExploreEaseMap.mkPackageData EmptyString EmptyString EmptyString
                                 EmptyString EmptyString 73 15 in
  exists marker,
    fst (ExploreEaseMap.addPackageMarker nameless mapped) = Some marker /\
    ExploreEaseMap.lngLat marker
      = (ExploreEaseMap.pkg_longitude nat nameless,
         ExploreEaseMap.pkg_latitude nat nameless) /\
    ExploreEaseMap.popup marker
      = Some (ExploreEaseMap.mkPopup 25
                (ExploreEaseMap.popupContent nat nameless)) /\
    ExploreEaseMap.this_markers
      (snd (ExploreEaseMap.addPackageMarker nameless mapped))
      = ExploreEaseMap.this_markers mapped ++ [marker].
Proof.
  apply (X15_package_marker_has_popup
           (ExploreEaseMap.mkPackageData EmptyString EmptyString EmptyString
                                         EmptyString EmptyString 73 15)
           mapped mapped_handle).
  reflexivity.
Defined.

Lemma X16_initPackageMap_one_marker_or_fallback_witness :
  let cfg :=
    ExploreEaseMap.mkMapConfig "map" "mapbox://styles/mapbox/outdoors-v12"
                               (73, 15) 12 true in
  let throws := fun c : ExploreEaseMap.MapConfig nat => false in
  let setup := fun c : ExploreEaseMap.MapConfig nat =>
                 Some ExploreEaseMap.AddGeolocate in
  let result :=
    ExploreEaseMap.initPackageMap (88, 22) 10 throws true setup (Nat.eqb 0) 12
      15 73 "Goa" (Some EmptyString) in
  if true then
    exists this,
      result = ExploreEaseMap.Made this /\
      if throws cfg then
        ExploreEaseMap.this_map this = None /\
        ExploreEaseMap.this_markers this = [] /\
        ExploreEaseMap.container_html this
          = option_map (fun _ => ExploreEaseMap.fallback_markup)
                       (Some EmptyString)
      else
        exists marker,
          ExploreEaseMap.this_markers this = [marker] /\
          ExploreEaseMap.lngLat marker = (73, 15) /\
          ExploreEaseMap.popup marker
            = Some (ExploreEaseMap.mkPopup 25
                      ("<h6>" ++ "Goa"
                         ++ "</h6><p>Your destination awaits!</p>")%string) /\
          ExploreEaseMap.this_map this
            = Some (ExploreEaseMap.mkMapboxMap cfg
                      (ExploreEaseMap.controls_before (setup cfg))
                      (ExploreEaseMap.listeners_before (setup cfg))
                      [marker]) /\
          ExploreEaseMap.container_html this
            = match setup cfg with
              | None => Some EmptyString
              | Some _ =>
                  option_map (fun _ => ExploreEaseMap.fallback_markup)
                             (Some EmptyString)
              end
  else result = ExploreEaseMap.Caught.
Proof.
  apply (X16_initPackageMap_one_marker_or_fallback
           (88, 22) 10 (fun c : ExploreEaseMap.MapConfig nat => false) true
           (fun c : ExploreEaseMap.MapConfig nat =>
              Some ExploreEaseMap.AddGeolocate)
           (Nat.eqb 0) 12 15 73 "Goa" (Some EmptyString));
    reflexivity.
Defined.
